(** * wafreport: the statistics engine of [wafreport.c], embedded and verified

    The development follows the C source function by function:
    [read_in_scores] (the [fgets]/[sscanf] loop that fills the two score
    histograms), [avg_mean], [avg_median] and the table computed by
    [print_stats].

    Conventions of the embedding.
    - A C [int] is a [Z]; arithmetic that can leave the 32-bit range is
      written with [int_wrap] (two's complement wrap-around, what the usual
      compilers emit for the signed overflow that C leaves undefined).
    - An [int a[MAX_SCORE+1]] array is a [list Z], read with stdpp's lookup
      and written with stdpp's insert; every index the source uses is
      guarded to lie in [0, MAX_SCORE].
    - A C [double] is a [double] below: an exact rational, an infinity or
      NaN.  The sums the program accumulates in a [double] are sums of at
      most [MAX_SCORE+1] ints and therefore exact in binary64; only the
      quotients (the mean and the percentages) are rounded by the hardware,
      and [DNum q] then stands for the binary64 number nearest to [q].
      Signed zeros are not distinguished: the only divisors are converted
      ints, whose zero is [+0.0].
    - Text is [list ascii]; a line buffer is what one [fgets] call stores. *)

From Stdlib Require Import ZArith QArith Ascii String List Lia Bool Sorted.
From stdpp Require Import base list.

Local Open Scope Z_scope.

(** ** C integers *)

Definition INT_MAX : Z := 2147483647.
Definition INT_MIN : Z := -2147483648.
Definition LONG_MAX : Z := 9223372036854775807.
Definition LONG_MIN : Z := -9223372036854775808.

(** [#define MAX_SCORE 65536] *)
Definition MAX_SCORE : Z := 65536.

Definition int_wrap (z : Z) : Z := (z + 2147483648) mod 4294967296 - 2147483648.

Definition int_add (a b : Z) : Z := int_wrap (a + b).
Definition int_mul (a b : Z) : Z := int_wrap (a * b).
(** C division truncates towards zero; [%] takes the sign of the dividend. *)
Definition int_div (a b : Z) : Z := int_wrap (Z.quot a b).
Definition int_rem (a b : Z) : Z := Z.rem a b.
(** [x++] *)
Definition int_incr (x : Z) : Z := int_add x 1.

Definition is_int (z : Z) : Prop := INT_MIN <= z <= INT_MAX.

(** ** C doubles *)

Inductive double : Type :=
  | DNum (q : Q)
  | DInf (negative : bool)
  | DNaN.

Definition d_of_int (z : Z) : double := DNum (inject_Z z).

Definition Qis_zero (q : Q) : bool := Qnum q =? 0.
Definition Qis_neg (q : Q) : bool := Qnum q <? 0.

Definition dneg (x : double) : double :=
  match x with
  | DNum q => DNum (- q)
  | DInf s => DInf (negb s)
  | DNaN => DNaN
  end.

Definition dadd (x y : double) : double :=
  match x, y with
  | DNaN, _ | _, DNaN => DNaN
  | DNum p, DNum q => DNum (p + q)
  | DInf s, DNum _ | DNum _, DInf s => DInf s
  | DInf s, DInf t => if Bool.eqb s t then DInf s else DNaN
  end.

Definition dsub (x y : double) : double := dadd x (dneg y).

Definition dmul (x y : double) : double :=
  match x, y with
  | DNaN, _ | _, DNaN => DNaN
  | DNum p, DNum q => DNum (p * q)
  | DInf s, DNum q | DNum q, DInf s =>
      if Qis_zero q then DNaN else DInf (xorb s (Qis_neg q))
  | DInf s, DInf t => DInf (xorb s t)
  end.

Definition ddiv (x y : double) : double :=
  match x, y with
  | DNaN, _ | _, DNaN => DNaN
  | DNum p, DNum q =>
      if Qis_zero q then
        if Qis_zero p then DNaN else DInf (Qis_neg p)
      else DNum (p / q)
  | DInf s, DNum q => DInf (xorb s (Qis_neg q))
  | DNum _, DInf _ => DNum 0
  | DInf _, DInf _ => DNaN
  end.

(** [x >= y]; every comparison with NaN is false. *)
Definition dge (x y : double) : bool :=
  match x, y with
  | DNaN, _ | _, DNaN => false
  | DNum p, DNum q => Qle_bool q p
  | DInf s, DInf t => implb s t
  | DInf s, DNum _ => negb s
  | DNum _, DInf t => t
  end.

(** Equality of doubles as numbers (rationals up to [Qeq]). *)
Definition deq (x y : double) : Prop :=
  match x, y with
  | DNum p, DNum q => Qeq p q
  | DInf s, DInf t => s = t
  | _, _ => False
  end.

(** ** [sscanf]: the three formats of [read_in_scores] *)

Definition chr (c : ascii) : Z := Z.of_N (N_of_ascii c).

(** [isspace] in the C locale: space, \t, \n, \v, \f, \r. *)
Definition isspace (c : ascii) : bool :=
  (chr c =? 32) || ((9 <=? chr c) && (chr c <=? 13)).

Definition isdigit (c : ascii) : bool := (48 <=? chr c) && (chr c <=? 57).

Definition digit_value (c : ascii) : Z := chr c - 48.

Definition is_minus (c : ascii) : bool := chr c =? 45.
Definition is_plus (c : ascii) : bool := chr c =? 43.

Fixpoint skip_space (s : list ascii) : list ascii :=
  match s with
  | c :: s' => if isspace c then skip_space s' else s
  | [] => []
  end.

(** The digits of a number: the value read so far, then what follows. *)
Fixpoint scan_digits (acc : Z) (s : list ascii) : Z * list ascii :=
  match s with
  | c :: s' =>
      if isdigit c then scan_digits (10 * acc + digit_value c) s' else (acc, s)
  | [] => (acc, [])
  end.

(** What [%d] stores for the decimal value [v].  C leaves a value outside
    [int] undefined; glibc converts with [strtol], which saturates at the
    range of [long], and stores the low 32 bits. *)
Definition store_int (v : Z) : Z := int_wrap (Z.max LONG_MIN (Z.min LONG_MAX v)).

(** One [%d] directive: skip white space, an optional sign, at least one
    digit.  [None] is a failed conversion (matching or input failure). *)
Definition conv_d (s : list ascii) : option (Z * list ascii) :=
  let s0 := skip_space s in
  let '(negative, s1) :=
    match s0 with
    | c :: r => if is_minus c then (true, r)
                else if is_plus c then (false, r) else (false, s0)
    | [] => (false, [])
    end in
  match s1 with
  | c :: _ =>
      if isdigit c then
        let '(v, rest) := scan_digits 0 s1 in
        Some (store_int (if negative then - v else v), rest)
      else None
  | [] => None
  end.

(** Each [sscanf] below returns the values it stored, in order; the C return
    value is their number (or [EOF] when there is none, which the caller's
    tests [== 2] and [== 1] treat like 0). *)

(** [sscanf(line_buf, "%d%d", &score_in, &score_out)] *)
Definition sscanf_d_d (line_buf : list ascii) : list Z :=
  match conv_d line_buf with
  | None => []
  | Some (a, rest) =>
      match conv_d rest with
      | None => [a]
      | Some (b, _) => [a; b]
      end
  end.

(** [sscanf(line_buf, "%d", &score_in)] *)
Definition sscanf_d (line_buf : list ascii) : list Z :=
  match conv_d line_buf with
  | None => []
  | Some (a, _) => [a]
  end.

(** [sscanf(line_buf, "-%d", &score_out)]: the literal [-] must be the very
    first character (no white space is skipped before a literal). *)
Definition sscanf_minus_d (line_buf : list ascii) : list Z :=
  match line_buf with
  | c :: rest =>
      if is_minus c then
        match conv_d rest with
        | None => []
        | Some (b, _) => [b]
        end
      else []
  | [] => []
  end.

(** The [if / else if / else if / else continue] cascade of the loop body:
    the pair [(score_in, score_out)] it leaves, or [None] for [continue].
    In each branch taken both variables are assigned in this very iteration
    (by the successful [sscanf] or by the [= -1] that follows it), so what
    an earlier line left in them is never read. *)
Definition classify (line_buf : list ascii) : option (Z * Z) :=
  match sscanf_d_d line_buf with
  | [score_in; score_out] => Some (score_in, score_out)
  | _ =>
      match sscanf_d line_buf with
      | [score_in] => Some (score_in, -1)
      | _ =>
          match sscanf_minus_d line_buf with
          | [score_out] => Some (-1, score_out)
          | _ => None
          end
      end
  end.

(** ** [read_in_scores] *)

(** The objects [read_in_scores] writes through its four pointers, and its
    local [count]. *)
Record scores : Type := Scores {
  score_count_in : list Z;
  score_count_out : list Z;
  invalid_in : Z;
  invalid_out : Z;
  count : Z
}.

(** "Store the anomaly score that's been seen", for one side. *)
Definition store_score (score : Z) (score_count : list Z) (invalid : Z)
  : list Z * Z :=
  if score <? 0 then (score_count, int_incr invalid)
  else if MAX_SCORE <? score then
    (<[Z.to_nat MAX_SCORE := int_incr (score_count !!! Z.to_nat MAX_SCORE)]>
       score_count, invalid)
  else
    (<[Z.to_nat score := int_incr (score_count !!! Z.to_nat score)]>
       score_count, invalid).

(** One iteration of the [while], after [fgets] has filled [line_buf]. *)
Definition loop_body (st : scores) (line_buf : list ascii) : scores :=
  match classify line_buf with
  | None => st
  | Some (score_in, score_out) =>
      let '(sc_in, inv_in) :=
        store_score score_in (score_count_in st) (invalid_in st) in
      let '(sc_out, inv_out) :=
        store_score score_out (score_count_out st) (invalid_out st) in
      Scores sc_in sc_out inv_in inv_out (int_incr (count st))
  end.

Definition newline : ascii := ascii_of_N 10.

(** [fgets] with room for [room] more characters: it stops after a newline,
    at the end of the stream, or when the buffer is full. *)
Fixpoint fgets_chars (room : nat) (stdin : list ascii)
  : list ascii * list ascii :=
  match room, stdin with
  | S room', c :: rest =>
      if Ascii.eqb c newline then ([c], rest)
      else let '(line, rest') := fgets_chars room' rest in (c :: line, rest')
  | _, _ => ([], stdin)
  end.

(** [fgets(line_buf, size, stdin)]: [None] is the NULL of end of file. *)
Definition fgets (size : nat) (stdin : list ascii)
  : option (list ascii * list ascii) :=
  match stdin with
  | [] => None
  | _ => Some (fgets_chars (size - 1) stdin)
  end.

(** [sizeof(line_buf)] *)
Definition LINE_BUF : nat := 24.

(** The [while (fgets(...) != NULL)] loop.  Every call of [fgets] on a
    non-empty stream consumes a character, so [length stdin] rounds are
    enough ([line_bufs_fuel] and [lines_concat] below). *)
Fixpoint read_loop (fuel : nat) (stdin : list ascii) (st : scores) : scores :=
  match fuel with
  | O => st
  | S fuel' =>
      match fgets LINE_BUF stdin with
      | None => st
      | Some (line_buf, rest) => read_loop fuel' rest (loop_body st line_buf)
      end
  end.

(** [read_in_scores]: the four objects behind the pointers as they are on
    entry, [count = 0]; the result holds the objects on return and, in
    [count], the value returned. *)
Definition read_in_scores (stdin : list ascii)
    (score_count_in score_count_out : list Z) (invalid_in invalid_out : Z)
  : scores :=
  read_loop (length stdin) stdin
    (Scores score_count_in score_count_out invalid_in invalid_out 0).

(** The zero-initialised objects of [main]. *)
Definition zero_counts : list Z := replicate (Z.to_nat (MAX_SCORE + 1)) 0.
Definition init_scores : scores := Scores zero_counts zero_counts 0 0 0.

(** [main], up to the return of [read_in_scores]. *)
Definition main_scores (stdin : list ascii) : scores :=
  read_in_scores stdin zero_counts zero_counts 0 0.

(** The line buffers the loop sees, one per successful [fgets]. *)
Fixpoint line_bufs (fuel : nat) (stdin : list ascii) : list (list ascii) :=
  match fuel with
  | O => []
  | S fuel' =>
      match fgets LINE_BUF stdin with
      | None => []
      | Some (line_buf, rest) => line_buf :: line_bufs fuel' rest
      end
  end.

Definition text (s : string) : list ascii := list_ascii_of_string s.

(** ** [avg_mean] *)

(** The cells of [score_count_array] the [for (i = 0; i <= MAX_SCORE; i++)]
    loops visit. *)
Definition cells (score_count_array : list Z) : list Z :=
  take (Z.to_nat (MAX_SCORE + 1)) score_count_array.

(** [mean += i * score_count_array[i]]: the product is an [int] product,
    converted to [double] for the addition.  ([i] stays at most
    [MAX_SCORE + 1], its increment never wraps.) *)
Fixpoint mean_loop (cs : list Z) (i : Z) (mean : double) : double :=
  match cs with
  | [] => mean
  | c :: cs' => mean_loop cs' (i + 1) (dadd mean (d_of_int (int_mul i c)))
  end.

Definition avg_mean (score_count_array : list Z) (scores_read : Z) : double :=
  let mean := mean_loop (cells score_count_array) 0 (DNum 0) in
  ddiv mean (d_of_int scores_read).

(** ** [avg_median] *)

(** One scan [for (i = 0; i <= MAX_SCORE; i++) { median += a[i];
    if (median >= threshold) break; }]: the value of [i] after the loop,
    which is [MAX_SCORE + 1] when the loop ends without [break]. *)
Fixpoint median_scan (cs : list Z) (i : Z) (median : double) (threshold : Z)
  : Z :=
  match cs with
  | [] => i
  | c :: cs' =>
      let median := dadd median (d_of_int c) in
      if dge median (d_of_int threshold) then i
      else median_scan cs' (i + 1) median threshold
  end.

Definition avg_median (score_count_array : list Z) (scores_read : Z)
  : double :=
  if negb (int_rem scores_read 2 =? 0) then
    (* odd number of elements *)
    let i := median_scan (cells score_count_array) 0 (DNum 0)
               (int_div (int_add scores_read 1) 2) in
    d_of_int i
  else
    (* even number of elements - take an average *)
    let lower_value := median_scan (cells score_count_array) 0 (DNum 0)
                         (int_div scores_read 2) in
    let i := median_scan (cells score_count_array) 0 (DNum 0)
               (int_add (int_div scores_read 2) 1) in
    ddiv (d_of_int (int_add lower_value i)) (d_of_int 2).

(** ** [print_stats] *)

(** The values [print_stats] hands to [printf] for one table row; the column
    widths ([digit_width]) only pad the text and are left out.
    [row_score = None] is the "Empty or invalid score" row. *)
Record row : Type := Row {
  row_score : option Z;
  row_count : Z;
  row_percent : double;
  row_cumulative : double;
  row_outstanding : double
}.

(** [100 * ((double) x / scores_read)] *)
Definition percent (x scores_read : Z) : double :=
  dmul (d_of_int 100) (ddiv (d_of_int x) (d_of_int scores_read)).

(** "Print out the non-empty scores from the score count array". *)
Fixpoint score_rows (cs : list Z) (i : Z) (running_total scores_read : Z)
  : list row :=
  match cs with
  | [] => []
  | c :: cs' =>
      if negb (c =? 0) then
        let running_total := int_add running_total c in
        let cumulative := percent running_total scores_read in
        Row (Some i) c (percent c scores_read) cumulative
            (dsub (d_of_int 100) cumulative)
          :: score_rows cs' (i + 1) running_total scores_read
      else score_rows cs' (i + 1) running_total scores_read
  end.

Record side_report : Type := SideReport {
  total_requests : Z;
  rows : list row;
  mean : double;
  median : double
}.

(** The part of [print_stats] for one direction; the source repeats it for
    the inbound and for the outbound data, with different captions. *)
Definition print_side (score_count : list Z) (invalid scores_read : Z)
  : side_report :=
  let running_total := invalid in
  let cumulative := percent running_total scores_read in
  SideReport scores_read
    (Row None invalid (percent invalid scores_read) cumulative
         (dsub (d_of_int 100) cumulative)
       :: score_rows (cells score_count) 0 running_total scores_read)
    (avg_mean score_count scores_read)
    (avg_median score_count scores_read).

Definition print_stats (score_count_in score_count_out : list Z)
    (invalid_in invalid_out scores_read : Z) : side_report * side_report :=
  (print_side score_count_in invalid_in scores_read,
   print_side score_count_out invalid_out scores_read).

(** [main] *)
Definition main (stdin : list ascii) : side_report * side_report :=
  let st := main_scores stdin in
  let scores_read := count st in
  print_stats (score_count_in st) (score_count_out st)
              (invalid_in st) (invalid_out st) scores_read.

(** ** [digit_width] and the column widths of [print_stats] *)

(** [while (n > 9) { n /= 10; width++; }].  An [int] has at most ten decimal
    digits, so the loop has ended after ten rounds ([digit_width_loop_fuel]
    below). *)
Fixpoint digit_width_loop (fuel : nat) (n width : Z) : Z :=
  match fuel with
  | O => width
  | S fuel' =>
      if 9 <? n then digit_width_loop fuel' (int_div n 10) (int_incr width)
      else width
  end.

Definition digit_width (n : Z) : Z :=
  let n := if n <? 0 then int_mul n (-1) else n in
  digit_width_loop 10 n 1.

(** [for (i = MAX_SCORE; i > 0; i--) if (score_count[i] != 0) break;]: the
    value of [i] after the loop.  [cs_down] holds the cells the loop visits,
    from [score_count[i]] down to [score_count[1]]. *)
Fixpoint width_scan (cs_down : list Z) (i : Z) : Z :=
  match cs_down with
  | [] => i
  | c :: cs' => if negb (c =? 0) then i else width_scan cs' (i - 1)
  end.

(** "How many digits in the largest score recorded?": the score whose
    width is taken. *)
Definition largest_score (score_count : list Z) : Z :=
  width_scan (rev (drop 1 (cells score_count))) MAX_SCORE.

(** The three widths [print_stats] computes before it prints. *)
Record column_widths : Type := ColumnWidths {
  dig_width_in : Z;
  dig_width_out : Z;
  dig_width_scores : Z
}.

Definition print_widths (score_count_in score_count_out : list Z)
    (scores_read : Z) : column_widths :=
  ColumnWidths (digit_width (largest_score score_count_in))
               (digit_width (largest_score score_count_out))
               (digit_width scores_read).

(** ** Notions used to state the properties *)

(** Σ of the bucket counts of a histogram. *)
Definition sum_counts (a : list Z) : Z := foldr Z.add 0 a.

(** The line buffers of a whole input stream. *)
Definition lines (stdin : list ascii) : list (list ascii) :=
  line_bufs (length stdin) stdin.

(** An input stream given by its lines, each ended by a newline. *)
Definition input (ls : list string) : list ascii :=
  concat (map (fun l => text l ++ [newline]) ls).

(** A line buffer the cascade accepts (it does not [continue]). *)
Definition classified (line_buf : list ascii) : bool :=
  match classify line_buf with Some _ => true | None => false end.

(** The running sum of bucket counts first reaches or exceeds [t] at
    score [i]. *)
Definition reaches_at (a : list Z) (t : Z) (i : nat) : Prop :=
  (i < length a)%nat /\
  t <= sum_counts (take (S i) a) /\
  forall j, (j < i)%nat -> sum_counts (take (S j) a) < t.

(** A histogram as [main] allocates it. *)
Definition histogram (a : list Z) : Prop :=
  length a = Z.to_nat (MAX_SCORE + 1) /\ Forall (fun c => 0 <= c) a.

(** After [k] classified lines: both histograms are well formed, and on
    each side the buckets and the invalid counter share out the [k] lines. *)
Definition accumulated (st : scores) (k : Z) : Prop :=
  histogram (score_count_in st) /\ histogram (score_count_out st) /\
  0 <= invalid_in st /\ 0 <= invalid_out st /\
  sum_counts (score_count_in st) + invalid_in st = k /\
  sum_counts (score_count_out st) + invalid_out st = k /\
  count st = k.

(** On one side, exactly one counter went up by one: the invalid counter,
    or one bucket. *)
Definition one_incremented (a : list Z) (invalid : Z)
    (a' : list Z) (invalid' : Z) : Prop :=
  (a' = a /\ invalid' = int_incr invalid) \/
  (invalid' = invalid /\
   exists i, (i < length a)%nat /\ a' = <[i := int_incr (a !!! i)]> a).

(** The histogram with the given counts at the given scores, zero
    elsewhere. *)
Definition histogram_of (l : list (nat * Z)) : list Z :=
  foldr (fun '(i, c) a => <[i := c]> a) zero_counts l.

(** A line that fits the line buffer together with its newline. *)
Definition short_line (l : string) : Prop :=
  (length (text l) < LINE_BUF - 1)%nat /\
  forallb (fun c => negb (Ascii.eqb c newline)) (text l) = true.

(** 32768 requests, each with the inbound score 65536. *)
Definition heavy_input : list ascii :=
  input (replicate (Z.to_nat 32768) "65536 0"%string).

(** Order of doubles that are numbers. *)
Definition dle (x y : double) : Prop :=
  match x, y with
  | DNum p, DNum q => Qle p q
  | _, _ => False
  end.

Fixpoint nondecreasing (xs : list double) : Prop :=
  match xs with
  | x :: (y :: _) as xs' => dle x y /\ nondecreasing xs'
  | _ => True
  end.

(** The "Cumulative" column of one table, top to bottom. *)
Definition cumulatives (r : side_report) : list double :=
  map row_cumulative (rows r).

(** *** The shape of a line, independently of the scanner *)

Inductive sign : Type := Unsigned | Plus | Minus.

Definition sign_chars (sg : sign) : list ascii :=
  match sg with
  | Unsigned => []
  | Plus => ["+"%char]
  | Minus => ["-"%char]
  end.

(** An optionally signed run of decimal digits, as text. *)
Definition integer (sg : sign) (ds : list ascii) : list ascii :=
  sign_chars sg ++ ds.

Definition digits (ds : list ascii) : Prop :=
  ds <> [] /\ forallb isdigit ds = true.

Definition spaces (ws : list ascii) : Prop := forallb isspace ws = true.

Definition decimal (ds : list ascii) : Z :=
  fold_left (fun acc c => 10 * acc + digit_value c) ds 0.

(** The number an integer text denotes. *)
Definition value (sg : sign) (ds : list ascii) : Z :=
  match sg with
  | Minus => - decimal ds
  | _ => decimal ds
  end.

(** What follows a number is not one more digit of it. *)
Definition no_digit_ahead (rest : list ascii) : Prop :=
  match rest with
  | c :: _ => isdigit c = false
  | [] => True
  end.

(** The text starts, after optional white space, with an integer. *)
Definition starts_with_integer (s : list ascii) : Prop :=
  exists ws sg ds rest,
    s = ws ++ integer sg ds ++ rest /\ spaces ws /\ digits ds.

(** The text is a [-] immediately at its start, then (after optional white
    space) an integer. *)
Definition minus_then_integer (s : list ascii) : Prop :=
  exists t, s = "-"%char :: t /\ starts_with_integer t.

(** Σ score × count over the buckets [cs], the first of which is the
    bucket of score [i]. *)
Fixpoint weighted_sum (cs : list Z) (i : Z) : Z :=
  match cs with
  | [] => 0
  | c :: cs' => i * c + weighted_sum cs' (i + 1)
  end.

(** *** Notions for the further properties *)

(** A line buffer as [fgets] cuts it: not empty, at most 23 characters, and
    no newline except in the last place. *)
Definition well_cut (line_buf : list ascii) : Prop :=
  line_buf <> [] /\
  (length line_buf <= LINE_BUF - 1)%nat /\
  forall pre post, line_buf = pre ++ newline :: post -> post = [].

(** The scores [i], [i + 1], ... paired with the counts [cs]. *)
Fixpoint indexed (cs : list Z) (i : Z) : list (Z * Z) :=
  match cs with
  | [] => []
  | c :: cs' => (i, c) :: indexed cs' (i + 1)
  end.

(** The scores with a non-zero count, ascending, each with its count. *)
Definition nonzero_buckets (a : list Z) : list (Z * Z) :=
  List.filter (fun sc => negb (snd sc =? 0)) (indexed a 0).



(** A double that is a number between [lo] and [hi]. *)
Definition dbetween (lo hi : Z) (x : double) : Prop :=
  match x with
  | DNum q => Qle (inject_Z lo) q /\ Qle q (inject_Z hi)
  | _ => False
  end.

(** A row whose score and count are no wider than the two column widths. *)
Definition fits (score_width count_width : Z) (r : row) : Prop :=
  digit_width (row_count r) <= count_width /\
  forall s, row_score r = Some s -> digit_width s <= score_width.


(** The counters of [st3] are, one by one, those of [st1] plus those of
    [st2]. *)
Definition adds_up (st1 st2 st3 : scores) : Prop :=
  count st3 = count st1 + count st2 /\
  invalid_in st3 = invalid_in st1 + invalid_in st2 /\
  invalid_out st3 = invalid_out st1 + invalid_out st2 /\
  (forall j, (j < Z.to_nat (MAX_SCORE + 1))%nat ->
     score_count_in st3 !!! j
     = score_count_in st1 !!! j + score_count_in st2 !!! j) /\
  (forall j, (j < Z.to_nat (MAX_SCORE + 1))%nat ->
     score_count_out st3 !!! j
     = score_count_out st1 !!! j + score_count_out st2 !!! j).

(** ** Integer arithmetic *)

Ltac int_range := unfold is_int, INT_MIN, INT_MAX in *; lia.

Lemma int_wrap_id z : is_int z -> int_wrap z = z.
Proof.
  unfold is_int, INT_MIN, INT_MAX, int_wrap. intros Hz.
  rewrite Z.mod_small by lia. lia.
Qed.

Lemma int_incr_id z : INT_MIN <= z < INT_MAX -> int_incr z = z + 1.
Proof.
  intros Hz. unfold int_incr, int_add. apply int_wrap_id. int_range.
Qed.

Lemma MAX_SCORE_nat : Z.to_nat (MAX_SCORE + 1) = S (Z.to_nat MAX_SCORE).
Proof. rewrite Z.add_1_r. apply Z2Nat.inj_succ. unfold MAX_SCORE. lia. Qed.

(** ** Sums of bucket counts *)

Lemma sum_counts_insert (a : list Z) (i : nat) (x : Z) :
  (i < length a)%nat ->
  sum_counts (<[i := x]> a) = sum_counts a - a !!! i + x.
Proof.
  revert i. induction a as [|y a IH]; intros i Hi; simpl in Hi; [lia|].
  destruct i as [|i]; unfold sum_counts in *; simpl.
  - lia.
  - rewrite IH by lia. unfold lookup_total, list_lookup_total. simpl. lia.
Qed.

Lemma sum_counts_nonneg (a : list Z) :
  Forall (fun c => 0 <= c) a -> 0 <= sum_counts a.
Proof.
  induction 1 as [|y a Hy Ha IH]; unfold sum_counts in *; simpl; lia.
Qed.

Lemma lookup_total_bounds (a : list Z) (i : nat) :
  Forall (fun c => 0 <= c) a -> (i < length a)%nat ->
  0 <= a !!! i <= sum_counts a.
Proof.
  intros Ha. revert i. induction Ha as [|y a Hy Ha IH]; intros i Hi;
    simpl in Hi; [lia|].
  pose proof (sum_counts_nonneg a Ha) as Hs.
  destruct i as [|i].
  - change ((y :: a) !!! 0%nat) with y.
    change (sum_counts (y :: a)) with (y + sum_counts a). lia.
  - change ((y :: a) !!! S i) with (a !!! i).
    change (sum_counts (y :: a)) with (y + sum_counts a).
    specialize (IH i ltac:(lia)). lia.
Qed.

Lemma sum_counts_replicate n : sum_counts (replicate n 0) = 0.
Proof. induction n as [|n IH]; unfold sum_counts in *; simpl; lia. Qed.

Lemma histogram_zero_counts : histogram zero_counts.
Proof.
  split.
  - unfold zero_counts. apply length_replicate.
  - unfold zero_counts. apply Forall_replicate. lia.
Qed.

(** ** The input loop *)

Lemma fgets_chars_app room stdin line rest :
  fgets_chars room stdin = (line, rest) -> stdin = line ++ rest.
Proof.
  revert stdin line rest.
  induction room as [|room IH]; intros [|c s] line rest H; simpl in H;
    try (injection H as <- <-; reflexivity).
  destruct (Ascii.eqb c newline).
  - injection H as <- <-. reflexivity.
  - destruct (fgets_chars room s) as [l r] eqn:E.
    injection H as <- <-. simpl. f_equal. apply (IH _ _ _ E).
Qed.

Lemma fgets_chars_nonempty room c s :
  fst (fgets_chars (S room) (c :: s)) <> [].
Proof.
  simpl. destruct (Ascii.eqb c newline); [discriminate|].
  destruct (fgets_chars room s). discriminate.
Qed.

Lemma fgets_consumes stdin line_buf rest :
  fgets LINE_BUF stdin = Some (line_buf, rest) ->
  stdin = line_buf ++ rest /\ line_buf <> [].
Proof.
  unfold fgets. destruct stdin as [|c s]; [discriminate|].
  remember (fgets_chars (LINE_BUF - 1) (c :: s)) as r eqn:E.
  intros H. injection H as ->. symmetry in E. split.
  - apply (fgets_chars_app _ _ _ _ E).
  - pose proof (fgets_chars_nonempty 22 c s) as Hne.
    change (LINE_BUF - 1)%nat with 23%nat in E. rewrite E in Hne. exact Hne.
Qed.

Lemma read_loop_fold fuel stdin st :
  read_loop fuel stdin st = fold_left loop_body (line_bufs fuel stdin) st.
Proof.
  revert stdin st. induction fuel as [|fuel IH]; intros stdin st; simpl.
  - reflexivity.
  - destruct (fgets LINE_BUF stdin) as [[line_buf rest]|]; simpl.
    + apply IH.
    + reflexivity.
Qed.

Lemma fgets_shorter stdin line_buf rest :
  fgets LINE_BUF stdin = Some (line_buf, rest) ->
  (length rest < length stdin)%nat.
Proof.
  intros H. destruct (fgets_consumes _ _ _ H) as [-> Hne].
  rewrite length_app. destruct line_buf; [congruence|simpl; lia].
Qed.

Lemma line_bufs_fuel_irrelevant fuel1 fuel2 stdin :
  (length stdin <= fuel1)%nat -> (length stdin <= fuel2)%nat ->
  line_bufs fuel1 stdin = line_bufs fuel2 stdin.
Proof.
  revert fuel2 stdin.
  induction fuel1 as [|fuel1 IH]; intros fuel2 stdin H1 H2.
  - destruct stdin; [|simpl in H1; lia]. destruct fuel2; reflexivity.
  - destruct fuel2 as [|fuel2].
    + destruct stdin; [reflexivity|simpl in H2; lia].
    + cbn [line_bufs].
      destruct (fgets LINE_BUF stdin) as [[line_buf rest]|] eqn:E;
        [|reflexivity].
      pose proof (fgets_shorter _ _ _ E) as Hlen.
      f_equal. apply IH; lia.
Qed.

(** More fuel than characters changes nothing: the loop always ends because
    [fgets] returns NULL. *)
Lemma line_bufs_fuel fuel stdin :
  (length stdin <= fuel)%nat -> line_bufs fuel stdin = lines stdin.
Proof.
  intros H. unfold lines. apply line_bufs_fuel_irrelevant; lia.
Qed.

Lemma lines_cons stdin line_buf rest :
  fgets LINE_BUF stdin = Some (line_buf, rest) ->
  lines stdin = line_buf :: lines rest.
Proof.
  intros E. pose proof (fgets_shorter _ _ _ E) as Hlen.
  unfold lines at 1. destruct (length stdin) as [|n] eqn:Hn; [lia|].
  cbn [line_bufs]. rewrite E. f_equal. apply line_bufs_fuel. lia.
Qed.

(** The line buffers are the input, cut into pieces: nothing is lost. *)
Lemma lines_concat stdin : concat (lines stdin) = stdin.
Proof.
  remember (length stdin) as n eqn:Hn. revert stdin Hn.
  induction n as [n IH] using lt_wf_ind. intros stdin Hn.
  destruct (fgets LINE_BUF stdin) as [[line_buf rest]|] eqn:E.
  - rewrite (lines_cons _ _ _ E). cbn [concat].
    pose proof (fgets_shorter _ _ _ E) as Hlen.
    rewrite (IH (length rest)) by (subst; auto).
    symmetry. apply (fgets_consumes _ _ _ E).
  - destruct stdin; [reflexivity|discriminate].
Qed.

Lemma read_in_scores_fold stdin a_in a_out inv_in inv_out :
  read_in_scores stdin a_in a_out inv_in inv_out
  = fold_left loop_body (lines stdin) (Scores a_in a_out inv_in inv_out 0).
Proof. unfold read_in_scores, lines. apply read_loop_fold. Qed.

Lemma main_scores_fold stdin :
  main_scores stdin = fold_left loop_body (lines stdin) init_scores.
Proof. apply read_in_scores_fold. Qed.

(** ** The accumulator invariant *)

Lemma accumulated_init : accumulated init_scores 0.
Proof.
  pose proof histogram_zero_counts as Hz.
  assert (Hs : sum_counts zero_counts = 0) by apply sum_counts_replicate.
  unfold accumulated, init_scores.
  cbn [score_count_in score_count_out invalid_in invalid_out count].
  rewrite Hs. repeat split; try apply Hz; lia.
Qed.

Lemma bucket_incr (a : list Z) (i : nat) (k : Z) :
  histogram a -> (i < length a)%nat -> sum_counts a <= k -> k < INT_MAX ->
  histogram (<[i := int_incr (a !!! i)]> a) /\
  sum_counts (<[i := int_incr (a !!! i)]> a) = sum_counts a + 1.
Proof.
  intros [Hlen Hpos] Hi Hsum Hk.
  pose proof (lookup_total_bounds a i Hpos Hi) as Hb.
  rewrite int_incr_id by (unfold INT_MIN; lia).
  split; [split|].
  - rewrite length_insert. exact Hlen.
  - apply Forall_insert; [exact Hpos|lia].
  - rewrite sum_counts_insert by exact Hi. lia.
Qed.

Lemma store_score_accumulates score a invalid k :
  histogram a -> 0 <= invalid -> sum_counts a + invalid = k -> k < INT_MAX ->
  let '(a', invalid') := store_score score a invalid in
  histogram a' /\ 0 <= invalid' /\ sum_counts a' + invalid' = k + 1.
Proof.
  intros Ha Hinv Hsum Hk.
  pose proof Ha as [Hlen Hpos].
  pose proof (sum_counts_nonneg a Hpos) as Hs.
  rewrite MAX_SCORE_nat in Hlen.
  unfold store_score.
  destruct (score <? 0) eqn:Hneg.
  - rewrite int_incr_id by (unfold INT_MIN; lia).
    repeat split; try apply Ha; lia.
  - apply Z.ltb_ge in Hneg.
    destruct (MAX_SCORE <? score) eqn:Hbig.
    + destruct (bucket_incr a (Z.to_nat MAX_SCORE) k Ha) as [H1 H2];
        try lia.
      repeat split; try apply H1; lia.
    + apply Z.ltb_ge in Hbig.
      destruct (bucket_incr a (Z.to_nat score) k Ha) as [H1 H2]; try lia.
      repeat split; try apply H1; lia.
Qed.

Lemma loop_body_skips st line_buf :
  classify line_buf = None -> loop_body st line_buf = st.
Proof. intros H. unfold loop_body. rewrite H. reflexivity. Qed.

Lemma loop_body_accumulates st k line_buf :
  accumulated st k -> k < INT_MAX -> classified line_buf = true ->
  accumulated (loop_body st line_buf) (k + 1).
Proof.
  intros (Hin & Hout & Hiin & Hiout & Hsin & Hsout & Hc) Hk Hcl.
  unfold classified in Hcl. unfold loop_body.
  destruct (classify line_buf) as [[score_in score_out]|]; [|discriminate].
  pose proof (store_score_accumulates score_in _ _ k Hin Hiin Hsin Hk) as H1.
  pose proof (store_score_accumulates score_out _ _ k Hout Hiout Hsout Hk)
    as H2.
  destruct (store_score score_in _ _) as [a1 i1].
  destruct (store_score score_out _ _) as [a2 i2].
  destruct H1 as (? & ? & ?), H2 as (? & ? & ?).
  assert (0 <= k) by (pose proof (sum_counts_nonneg _ (proj2 Hin)); lia).
  unfold accumulated.
  cbn [score_count_in score_count_out invalid_in invalid_out count].
  rewrite Hc, int_incr_id by (unfold INT_MIN; lia). tauto.
Qed.

Lemma fold_loop_body_accumulates bufs st k :
  accumulated st k ->
  k + Z.of_nat (length (List.filter classified bufs)) <= INT_MAX ->
  accumulated (fold_left loop_body bufs st)
              (k + Z.of_nat (length (List.filter classified bufs))).
Proof.
  revert st k. induction bufs as [|b bufs IH]; intros st k Hacc Hk.
  - simpl. rewrite Z.add_0_r. exact Hacc.
  - cbn [fold_left List.filter] in *.
    destruct (classified b) eqn:Hb.
    + cbn [length] in *.
      replace (k + Z.of_nat (S (length (List.filter classified bufs))))
        with ((k + 1) + Z.of_nat (length (List.filter classified bufs)))
        in * by lia.
      apply IH; [|exact Hk].
      apply loop_body_accumulates; [exact Hacc|lia|exact Hb].
    + rewrite loop_body_skips; [apply IH; assumption|].
      unfold classified in Hb.
      destruct (classify b); [discriminate|reflexivity].
Qed.

Lemma store_score_one score (a : list Z) invalid :
  length a = Z.to_nat (MAX_SCORE + 1) ->
  one_incremented a invalid (store_score score a invalid).1
                            (store_score score a invalid).2.
Proof.
  intros Hlen. rewrite MAX_SCORE_nat in Hlen. unfold store_score.
  destruct (score <? 0) eqn:Hneg; [left; split; reflexivity|].
  apply Z.ltb_ge in Hneg. right.
  destruct (MAX_SCORE <? score) eqn:Hbig; cbn [fst snd].
  - split; [reflexivity|]. exists (Z.to_nat MAX_SCORE).
    split; [lia|reflexivity].
  - apply Z.ltb_ge in Hbig. split; [reflexivity|]. exists (Z.to_nat score).
    split; [lia|reflexivity].
Qed.

Lemma loop_body_one st line_buf :
  classified line_buf = true ->
  length (score_count_in st) = Z.to_nat (MAX_SCORE + 1) ->
  length (score_count_out st) = Z.to_nat (MAX_SCORE + 1) ->
  count (loop_body st line_buf) = int_incr (count st) /\
  one_incremented (score_count_in st) (invalid_in st)
    (score_count_in (loop_body st line_buf))
    (invalid_in (loop_body st line_buf)) /\
  one_incremented (score_count_out st) (invalid_out st)
    (score_count_out (loop_body st line_buf))
    (invalid_out (loop_body st line_buf)).
Proof.
  unfold classified, loop_body. intros Hcl Hin Hout.
  destruct (classify line_buf) as [[score_in score_out]|]; [|discriminate].
  pose proof (store_score_one score_in _ (invalid_in st) Hin) as H1.
  pose proof (store_score_one score_out _ (invalid_out st) Hout) as H2.
  destruct (store_score score_in _ _) as [a1 i1].
  destruct (store_score score_out _ _) as [a2 i2].
  cbn [score_count_in score_count_out invalid_in invalid_out count].
  auto.
Qed.

(** C1.  A classified line increments the total once and, on each side on
    its own, exactly one of the invalid counter and the buckets; this
    includes the line "-1 -1", invalid on both sides.  Consequently, for
    every input whose classified lines can be counted in an [int],
    [read_in_scores] returns the number of classified lines, and on each
    side the sum of all bucket counts plus the invalid counter equals that
    total. *)
Theorem read_in_scores_totals :
  (forall st line_buf,
      classified line_buf = true ->
      length (score_count_in st) = Z.to_nat (MAX_SCORE + 1) ->
      length (score_count_out st) = Z.to_nat (MAX_SCORE + 1) ->
      count (loop_body st line_buf) = int_incr (count st) /\
      one_incremented (score_count_in st) (invalid_in st)
        (score_count_in (loop_body st line_buf))
        (invalid_in (loop_body st line_buf)) /\
      one_incremented (score_count_out st) (invalid_out st)
        (score_count_out (loop_body st line_buf))
        (invalid_out (loop_body st line_buf))) /\
  classify (text "-1 -1") = Some (-1, -1) /\
  (forall stdin,
      Z.of_nat (length (List.filter classified (lines stdin))) <= INT_MAX ->
      count (main_scores stdin)
      = Z.of_nat (length (List.filter classified (lines stdin))) /\
      sum_counts (score_count_in (main_scores stdin))
      + invalid_in (main_scores stdin) = count (main_scores stdin) /\
      sum_counts (score_count_out (main_scores stdin))
      + invalid_out (main_scores stdin) = count (main_scores stdin)).
Proof.
  split; [exact loop_body_one|]. split; [reflexivity|].
  intros stdin Hn. rewrite main_scores_fold.
  pose proof (fold_loop_body_accumulates (lines stdin) init_scores 0
                accumulated_init) as H.
  rewrite Z.add_0_l in H. specialize (H Hn).
  destruct H as (_ & _ & _ & _ & Hin & Hout & Hc).
  rewrite Hin, Hout, Hc. auto.
Qed.

Lemma read_in_scores_totals_witness :
  count (loop_body init_scores (text "-1 -1")) = int_incr (count init_scores) /\
  count (main_scores (input ["0 0"; "-1 -1"; "5 -"; "abc"; "- 70000"]%string))
  = 4 /\
  sum_counts (score_count_in (main_scores
     (input ["0 0"; "-1 -1"; "5 -"; "abc"; "- 70000"]%string)))
  + invalid_in (main_scores
     (input ["0 0"; "-1 -1"; "5 -"; "abc"; "- 70000"]%string))
  = 4.
Proof.
  destruct read_in_scores_totals as (Hline & _ & Htotal).
  split.
  - apply Hline; [reflexivity|apply histogram_zero_counts ..].
  - assert (H : Z.of_nat (length (List.filter classified
       (lines (input ["0 0"; "-1 -1"; "5 -"; "abc"; "- 70000"]%string))))
       <= INT_MAX) by (vm_compute; discriminate).
    destruct (Htotal _ H) as (Hc & Hin & _).
    assert (Hn : Z.of_nat (length (List.filter classified
       (lines (input ["0 0"; "-1 -1"; "5 -"; "abc"; "- 70000"]%string)))) = 4)
      by (vm_compute; reflexivity).
    rewrite Hn in Hc. rewrite Hin, Hc. split; reflexivity.
Defined.

(** ** The scanner against the shape of a line *)

Lemma isdigit_chr c : isdigit c = true <-> 48 <= chr c <= 57.
Proof. unfold isdigit. rewrite andb_true_iff, !Z.leb_le. tauto. Qed.

Lemma digit_not_space c : isdigit c = true -> isspace c = false.
Proof.
  rewrite isdigit_chr. intros H. unfold isspace.
  apply orb_false_iff. split.
  - apply Z.eqb_neq. lia.
  - apply andb_false_iff. right. apply Z.leb_gt. lia.
Qed.

Lemma digit_not_minus c : isdigit c = true -> is_minus c = false.
Proof. rewrite isdigit_chr. intros H. apply Z.eqb_neq. lia. Qed.

Lemma digit_not_plus c : isdigit c = true -> is_plus c = false.
Proof. rewrite isdigit_chr. intros H. apply Z.eqb_neq. lia. Qed.

Lemma skip_space_app ws s : spaces ws -> skip_space (ws ++ s) = skip_space s.
Proof.
  unfold spaces. induction ws as [|w ws IH]; simpl; [reflexivity|].
  intros H. apply andb_true_iff in H as [Hw Hws]. rewrite Hw. auto.
Qed.

Lemma skip_space_split s :
  exists ws, s = ws ++ skip_space s /\ spaces ws.
Proof.
  induction s as [|c s (ws & Hs & Hws)]; simpl.
  - exists []. split; reflexivity.
  - destruct (isspace c) eqn:Hc.
    + exists (c :: ws). split.
      * simpl. f_equal. exact Hs.
      * unfold spaces. simpl. rewrite Hc. exact Hws.
    + exists []. split; reflexivity.
Qed.

Lemma scan_digits_app ds acc rest :
  forallb isdigit ds = true -> no_digit_ahead rest ->
  scan_digits acc (ds ++ rest)
  = (fold_left (fun acc c => 10 * acc + digit_value c) ds acc, rest).
Proof.
  revert acc. induction ds as [|d ds IH]; intros acc Hds Hrest; simpl.
  - destruct rest as [|c rest]; [reflexivity|].
    simpl in Hrest. simpl. rewrite Hrest. reflexivity.
  - simpl in Hds. apply andb_true_iff in Hds as [Hd Hds].
    rewrite Hd. apply IH; assumption.
Qed.

Lemma scan_digits_split s acc :
  exists ds, s = ds ++ snd (scan_digits acc s) /\ forallb isdigit ds = true /\
             no_digit_ahead (snd (scan_digits acc s)) /\
             fst (scan_digits acc s)
             = fold_left (fun acc c => 10 * acc + digit_value c) ds acc.
Proof.
  revert acc. induction s as [|c s IH]; intros acc; simpl.
  - exists []. repeat split.
  - destruct (isdigit c) eqn:Hc.
    + destruct (IH (10 * acc + digit_value c)) as (ds & Hs & Hds & Hn & Hv).
      exists (c :: ds). simpl. rewrite Hc. repeat split; try assumption.
      f_equal. exact Hs.
    + exists []. simpl. repeat split. exact Hc.
Qed.

(** [%d] reads an integer text and stops right behind it. *)
Lemma conv_d_integer ws sg ds rest :
  spaces ws -> digits ds -> no_digit_ahead rest ->
  conv_d (ws ++ integer sg ds ++ rest)
  = Some (store_int (value sg ds), rest).
Proof.
  intros Hws [Hne Hds] Hrest. unfold conv_d.
  rewrite skip_space_app by exact Hws.
  destruct ds as [|d ds]; [congruence|].
  pose proof Hds as Hall. simpl in Hds.
  apply andb_true_iff in Hds as [Hd _].
  pose proof (scan_digits_app (d :: ds) 0 rest Hall Hrest) as Hscan.
  change ((d :: ds) ++ rest) with (d :: ds ++ rest) in Hscan.
  destruct sg; unfold integer, sign_chars, value;
    cbn [app skip_space].
  - rewrite (digit_not_space d Hd), (digit_not_minus d Hd),
      (digit_not_plus d Hd), Hd, Hscan. reflexivity.
  - replace (isspace "+"%char) with false by reflexivity.
    replace (is_minus "+"%char) with false by reflexivity.
    replace (is_plus "+"%char) with true by reflexivity.
    rewrite Hd, Hscan. reflexivity.
  - replace (isspace "-"%char) with false by reflexivity.
    replace (is_minus "-"%char) with true by reflexivity.
    rewrite Hd, Hscan. reflexivity.
Qed.

Lemma chr_inj c (n : N) : chr c = Z.of_N n -> c = ascii_of_N n.
Proof.
  unfold chr. intros H. rewrite <- (ascii_N_embedding c). f_equal. lia.
Qed.

(** [%d] succeeds only on a text that starts with an integer. *)
Lemma conv_d_starts s v rest :
  conv_d s = Some (v, rest) -> starts_with_integer s.
Proof.
  unfold conv_d. destruct (skip_space_split s) as (ws & Hs & Hws).
  intros H.
  assert (Hgen : forall sg c s1,
            skip_space s = sign_chars sg ++ c :: s1 -> isdigit c = true ->
            starts_with_integer s).
  { intros sg c s1 Hs0 Hc.
    destruct (scan_digits_split s1 0) as (ds & Hs1 & Hds & _ & _).
    exists ws, sg, (c :: ds), (snd (scan_digits 0 s1)).
    repeat split.
    - rewrite Hs at 1. rewrite Hs0. unfold integer.
      rewrite <- !app_assoc. simpl. rewrite <- Hs1. reflexivity.
    - exact Hws.
    - discriminate.
    - simpl. rewrite Hc. exact Hds. }
  destruct (skip_space s) as [|c r] eqn:Hs0; [discriminate|].
  destruct (is_minus c) eqn:Hm; [|destruct (is_plus c) eqn:Hp].
  - apply Z.eqb_eq, (chr_inj c 45) in Hm. subst c.
    destruct r as [|d r]; [discriminate|].
    destruct (isdigit d) eqn:Hd; [|discriminate].
    apply (Hgen Minus d r); [reflexivity|exact Hd].
  - apply Z.eqb_eq, (chr_inj c 43) in Hp. subst c.
    destruct r as [|d r]; [discriminate|].
    destruct (isdigit d) eqn:Hd; [|discriminate].
    apply (Hgen Plus d r); [reflexivity|exact Hd].
  - destruct (isdigit c) eqn:Hd; [|discriminate].
    apply (Hgen Unsigned c r); [reflexivity|exact Hd].
Qed.

Lemma conv_d_none s : ~ starts_with_integer s -> conv_d s = None.
Proof.
  intros H. destruct (conv_d s) as [[v rest]|] eqn:E; [|reflexivity].
  exfalso. apply H. apply (conv_d_starts _ _ _ E).
Qed.

Lemma store_int_id v : is_int v -> store_int v = v.
Proof.
  intros Hv. unfold store_int.
  assert (Z.max LONG_MIN (Z.min LONG_MAX v) = v) as ->.
  { unfold is_int, INT_MIN, INT_MAX, LONG_MIN, LONG_MAX in *. lia. }
  apply int_wrap_id. exact Hv.
Qed.

Lemma starts_with_integer_conv_d s :
  starts_with_integer s -> exists v rest, conv_d s = Some (v, rest).
Proof.
  intros (ws & sg & ds & rest & -> & Hws & Hne & Hds).
  destruct (scan_digits_split rest 0) as (ds' & Hrest & Hds' & Hnd & _).
  exists (store_int (value sg (ds ++ ds'))), (snd (scan_digits 0 rest)).
  rewrite Hrest at 1. unfold integer.
  replace (ws ++ (sign_chars sg ++ ds) ++ ds' ++ snd (scan_digits 0 rest))
    with (ws ++ integer sg (ds ++ ds') ++ snd (scan_digits 0 rest))
    by (unfold integer; rewrite <- !app_assoc; reflexivity).
  apply conv_d_integer; [exact Hws| |exact Hnd].
  split.
  - destruct ds; [congruence|discriminate].
  - rewrite forallb_app, Hds, Hds'. reflexivity.
Qed.

Lemma conv_d_none_iff s : conv_d s = None <-> ~ starts_with_integer s.
Proof.
  split.
  - intros H Hs. destruct (starts_with_integer_conv_d s Hs) as (v & r & E).
    congruence.
  - apply conv_d_none.
Qed.

Lemma starts_with_integer_conv_d_iff s :
  starts_with_integer s <-> conv_d s <> None.
Proof.
  split.
  - intros (v & r & E)%starts_with_integer_conv_d. congruence.
  - destruct (conv_d s) as [[v r]|] eqn:E; [|congruence].
    intros _. apply (conv_d_starts _ _ _ E).
Qed.

Lemma space_no_digit_ahead ws s :
  spaces ws -> ws <> [] -> no_digit_ahead (ws ++ s).
Proof.
  intros Hws Hne. destruct ws as [|w ws]; [congruence|].
  unfold spaces in Hws. simpl in Hws. apply andb_true_iff in Hws as [Hw _].
  simpl. destruct (isdigit w) eqn:Hd; [|reflexivity].
  rewrite (digit_not_space w Hd) in Hw. discriminate.
Qed.

(** The three branches of the cascade, on the texts they are meant for. *)

Lemma classify_both ws1 sg1 ds1 ws2 sg2 ds2 rest :
  spaces ws1 -> digits ds1 -> spaces ws2 -> ws2 <> [] -> digits ds2 ->
  no_digit_ahead rest ->
  classify (ws1 ++ integer sg1 ds1 ++ ws2 ++ integer sg2 ds2 ++ rest)
  = Some (store_int (value sg1 ds1), store_int (value sg2 ds2)).
Proof.
  intros Hws1 Hds1 Hws2 Hne2 Hds2 Hrest. unfold classify, sscanf_d_d.
  rewrite (conv_d_integer ws1 sg1 ds1) by
    (try assumption; apply space_no_digit_ahead; assumption).
  rewrite (conv_d_integer ws2 sg2 ds2) by assumption.
  reflexivity.
Qed.

Lemma classify_inbound_only ws sg ds rest :
  spaces ws -> digits ds -> no_digit_ahead rest ->
  ~ starts_with_integer rest ->
  classify (ws ++ integer sg ds ++ rest) = Some (store_int (value sg ds), -1).
Proof.
  intros Hws Hds Hrest Hno. unfold classify, sscanf_d_d, sscanf_d.
  rewrite (conv_d_integer ws sg ds) by assumption.
  rewrite (conv_d_none rest Hno). reflexivity.
Qed.

Lemma classify_outbound_only ws sg ds rest :
  spaces ws -> digits ds -> no_digit_ahead rest ->
  ~ starts_with_integer ("-"%char :: ws ++ integer sg ds ++ rest) ->
  classify ("-"%char :: ws ++ integer sg ds ++ rest)
  = Some (-1, store_int (value sg ds)).
Proof.
  intros Hws Hds Hrest Hno.
  unfold classify, sscanf_d_d, sscanf_d, sscanf_minus_d.
  rewrite (conv_d_none _ Hno).
  replace (is_minus "-"%char) with true by reflexivity.
  rewrite (conv_d_integer ws sg ds) by assumption.
  reflexivity.
Qed.

Lemma classify_none line_buf :
  classify line_buf = None <->
  ~ starts_with_integer line_buf /\ ~ minus_then_integer line_buf.
Proof.
  unfold classify, sscanf_d_d, sscanf_d, sscanf_minus_d. split.
  - intros H.
    destruct (conv_d line_buf) as [[a rest]|] eqn:E1.
    { destruct (conv_d rest) as [[b rest']|]; discriminate. }
    apply conv_d_none_iff in E1. split; [exact E1|].
    intros (t & -> & Ht).
    replace (is_minus "-"%char) with true in H by reflexivity.
    destruct (starts_with_integer_conv_d t Ht) as (v & r & E2).
    rewrite E2 in H. discriminate.
  - intros [H1 H2]. rewrite (conv_d_none _ H1).
    destruct line_buf as [|c t]; [reflexivity|].
    destruct (is_minus c) eqn:Hm; [|reflexivity].
    apply Z.eqb_eq, (chr_inj c 45) in Hm. subst c.
    rewrite conv_d_none; [reflexivity|].
    intros Ht. apply H2. exists t. split; [reflexivity|exact Ht].
Qed.

(** C2.  The cascade tries the three formats in order and the first that
    matches decides: two white-space separated integers give
    (first, second); otherwise a leading integer gives (it, -1); otherwise
    a [-] followed by an integer gives (-1, it).  "5 -" is (5, -1) and
    "- 7" is (-1, 7).  The integers are those an [int] can hold. *)
Theorem classify_priority :
  (forall ws1 sg1 ds1 ws2 sg2 ds2 rest,
      spaces ws1 -> digits ds1 -> spaces ws2 -> ws2 <> [] -> digits ds2 ->
      no_digit_ahead rest ->
      is_int (value sg1 ds1) -> is_int (value sg2 ds2) ->
      classify (ws1 ++ integer sg1 ds1 ++ ws2 ++ integer sg2 ds2 ++ rest)
      = Some (value sg1 ds1, value sg2 ds2)) /\
  (forall ws sg ds rest,
      spaces ws -> digits ds -> no_digit_ahead rest ->
      ~ starts_with_integer rest ->
      is_int (value sg ds) ->
      classify (ws ++ integer sg ds ++ rest) = Some (value sg ds, -1)) /\
  (forall ws sg ds rest,
      spaces ws -> digits ds -> no_digit_ahead rest ->
      ~ starts_with_integer ("-"%char :: ws ++ integer sg ds ++ rest) ->
      is_int (value sg ds) ->
      classify ("-"%char :: ws ++ integer sg ds ++ rest)
      = Some (-1, value sg ds)) /\
  classify (text "5 -") = Some (5, -1) /\
  classify (text "- 7") = Some (-1, 7).
Proof.
  split; [|split; [|split; [|split; reflexivity]]].
  - intros ws1 sg1 ds1 ws2 sg2 ds2 rest H1 H2 H3 H4 H5 H6 Hv1 Hv2.
    rewrite classify_both by assumption.
    rewrite !store_int_id by assumption. reflexivity.
  - intros ws sg ds rest H1 H2 H3 H4 Hv.
    rewrite classify_inbound_only by assumption.
    rewrite store_int_id by assumption. reflexivity.
  - intros ws sg ds rest H1 H2 H3 H4 Hv.
    rewrite classify_outbound_only by assumption.
    rewrite store_int_id by assumption. reflexivity.
Qed.

Lemma classify_priority_witness :
  classify (text "12 -3") = Some (12, -3) /\
  classify (text "5 abc") = Some (5, -1) /\
  classify (text "- 7") = Some (-1, 7).
Proof.
  destruct classify_priority as (Hboth & Hin & Hout & _).
  split; [|split].
  - apply (Hboth [] Unsigned (text "12") (text " ") Minus (text "3") []).
    + reflexivity.
    + split; [discriminate|reflexivity].
    + reflexivity.
    + discriminate.
    + split; [discriminate|reflexivity].
    + exact I.
    + split; discriminate.
    + split; discriminate.
  - apply (Hin [] Unsigned (text "5") (text " abc")).
    + reflexivity.
    + split; [discriminate|reflexivity].
    + reflexivity.
    + apply conv_d_none_iff. reflexivity.
    + split; discriminate.
  - apply (Hout (text " ") Unsigned (text "7") []).
    + reflexivity.
    + split; [discriminate|reflexivity].
    + exact I.
    + apply conv_d_none_iff. reflexivity.
    + split; discriminate.
Defined.

(** ** Lines the cascade rejects, lines it accepts *)

Lemma loop_body_counts st line_buf :
  classified line_buf = true ->
  count (loop_body st line_buf) = int_incr (count st).
Proof.
  unfold classified, loop_body.
  destruct (classify line_buf) as [[score_in score_out]|]; [|discriminate].
  intros _.
  destruct (store_score score_in _ _), (store_score score_out _ _).
  reflexivity.
Qed.

(** C3, as the code has it.  A line that neither starts (after optional
    white space) with an integer nor is a [-] followed by an integer is
    ignored entirely: the histograms, the invalid counters and the total
    stay as they are.  Every other line is counted; in particular a line
    whose integer is followed by garbage, such as "5 abc", is an
    inbound-only line: inbound 5, outbound invalid. *)
Theorem unmatched_line_ignored :
  (forall st line_buf,
      ~ starts_with_integer line_buf -> ~ minus_then_integer line_buf ->
      loop_body st line_buf = st) /\
  (forall st line_buf,
      starts_with_integer line_buf \/ minus_then_integer line_buf ->
      count (loop_body st line_buf) = int_incr (count st)) /\
  classify (text "5 abc") = Some (5, -1).
Proof.
  split; [|split; [|reflexivity]].
  - intros st line_buf H1 H2. apply loop_body_skips.
    apply classify_none. split; assumption.
  - intros st line_buf H. apply loop_body_counts. unfold classified.
    destruct (classify line_buf) eqn:E; [reflexivity|].
    apply classify_none in E. tauto.
Qed.

Lemma unmatched_line_ignored_witness :
  loop_body init_scores (text "abc") = init_scores /\
  count (loop_body init_scores (text "5 abc")) = int_incr (count init_scores).
Proof.
  destruct unmatched_line_ignored as (Hskip & Hcount & _).
  split.
  - apply Hskip.
    + apply conv_d_none_iff. reflexivity.
    + intros (t & Ht & _). discriminate Ht.
  - apply Hcount. left. apply starts_with_integer_conv_d_iff.
    vm_compute. discriminate.
Defined.

(** The line "5 abc" has an integer first token and a non-numeric second
    one, and it is counted: bucket 5 inbound, invalid outbound. *)
Lemma garbage_after_integer_counted :
  count (loop_body init_scores (text "5 abc")) = 1 /\
  score_count_in (loop_body init_scores (text "5 abc")) !!! 5%nat = 1 /\
  invalid_out (loop_body init_scores (text "5 abc")) = 1 /\
  loop_body init_scores (text "5 abc") <> init_scores.
Proof.
  assert (Hc : count (loop_body init_scores (text "5 abc")) = 1)
    by (vm_compute; reflexivity).
  split; [exact Hc|].
  split; [vm_compute; reflexivity|].
  split; [vm_compute; reflexivity|].
  intros E. rewrite E in Hc. discriminate Hc.
Qed.

(** ** Where a score is stored *)

Lemma store_score_top score (a : list Z) invalid :
  length a = Z.to_nat (MAX_SCORE + 1) -> MAX_SCORE < score ->
  let '(a', invalid') := store_score score a invalid in
  a' !!! Z.to_nat MAX_SCORE = int_incr (a !!! Z.to_nat MAX_SCORE) /\
  (forall j, j <> Z.to_nat MAX_SCORE -> a' !!! j = a !!! j) /\
  invalid' = invalid.
Proof.
  intros Hlen Hbig. rewrite MAX_SCORE_nat in Hlen. unfold store_score.
  assert (0 <= MAX_SCORE) by (unfold MAX_SCORE; lia).
  destruct (score <? 0) eqn:Hneg; [apply Z.ltb_lt in Hneg; lia|].
  apply Z.ltb_lt in Hbig. rewrite Hbig.
  split; [|split; [|reflexivity]].
  - apply list_lookup_total_insert_eq. lia.
  - intros j Hj. apply list_lookup_total_insert_ne. congruence.
Qed.

Lemma store_score_negative score (a : list Z) invalid :
  score < 0 -> store_score score a invalid = (a, int_incr invalid).
Proof.
  intros Hneg. unfold store_score. apply Z.ltb_lt in Hneg. rewrite Hneg.
  reflexivity.
Qed.

Lemma store_score_exact score (a : list Z) invalid :
  length a = Z.to_nat (MAX_SCORE + 1) -> 0 <= score <= MAX_SCORE ->
  let '(a', invalid') := store_score score a invalid in
  a' !!! Z.to_nat score = int_incr (a !!! Z.to_nat score) /\
  (forall j, j <> Z.to_nat score -> a' !!! j = a !!! j) /\
  invalid' = invalid.
Proof.
  intros Hlen Hs. rewrite MAX_SCORE_nat in Hlen. unfold store_score.
  destruct (score <? 0) eqn:Hneg; [apply Z.ltb_lt in Hneg; lia|].
  destruct (MAX_SCORE <? score) eqn:Hbig; [apply Z.ltb_lt in Hbig; lia|].
  split; [|split; [|reflexivity]].
  - apply list_lookup_total_insert_eq. lia.
  - intros j Hj. apply list_lookup_total_insert_ne. congruence.
Qed.

(** C9.  On a classified line, for each side on its own: a score above
    MAX_SCORE increments bucket MAX_SCORE and nothing else of that side (it
    is neither dropped nor an error); a score below 0 increments that side's
    invalid counter and leaves every bucket as it was. *)
Theorem out_of_range_scores st line_buf score_in score_out :
  classify line_buf = Some (score_in, score_out) ->
  length (score_count_in st) = Z.to_nat (MAX_SCORE + 1) ->
  length (score_count_out st) = Z.to_nat (MAX_SCORE + 1) ->
  (MAX_SCORE < score_in ->
     score_count_in (loop_body st line_buf) !!! Z.to_nat MAX_SCORE
     = int_incr (score_count_in st !!! Z.to_nat MAX_SCORE) /\
     (forall j, j <> Z.to_nat MAX_SCORE ->
        score_count_in (loop_body st line_buf) !!! j = score_count_in st !!! j) /\
     invalid_in (loop_body st line_buf) = invalid_in st) /\
  (score_in < 0 ->
     invalid_in (loop_body st line_buf) = int_incr (invalid_in st) /\
     score_count_in (loop_body st line_buf) = score_count_in st) /\
  (MAX_SCORE < score_out ->
     score_count_out (loop_body st line_buf) !!! Z.to_nat MAX_SCORE
     = int_incr (score_count_out st !!! Z.to_nat MAX_SCORE) /\
     (forall j, j <> Z.to_nat MAX_SCORE ->
        score_count_out (loop_body st line_buf) !!! j
        = score_count_out st !!! j) /\
     invalid_out (loop_body st line_buf) = invalid_out st) /\
  (score_out < 0 ->
     invalid_out (loop_body st line_buf) = int_incr (invalid_out st) /\
     score_count_out (loop_body st line_buf) = score_count_out st).
Proof.
  intros Hcl Hlin Hlout. unfold loop_body. rewrite Hcl.
  pose proof (store_score_top score_in _ (invalid_in st) Hlin) as Htin.
  pose proof (store_score_top score_out _ (invalid_out st) Hlout) as Htout.
  pose proof (store_score_negative score_in (score_count_in st)
                (invalid_in st)) as Hnin.
  pose proof (store_score_negative score_out (score_count_out st)
                (invalid_out st)) as Hnout.
  destruct (store_score score_in _ _) as [a1 i1].
  destruct (store_score score_out _ _) as [a2 i2].
  cbn [score_count_in score_count_out invalid_in invalid_out].
  split; [exact Htin|]. split.
  { intros H. specialize (Hnin H). injection Hnin as -> ->. auto. }
  split; [exact Htout|].
  intros H. specialize (Hnout H). injection Hnout as -> ->. auto.
Qed.

Lemma out_of_range_scores_witness :
  score_count_in (loop_body init_scores (text "70000 -5"))
    !!! Z.to_nat MAX_SCORE
  = int_incr (score_count_in init_scores !!! Z.to_nat MAX_SCORE) /\
  invalid_out (loop_body init_scores (text "70000 -5"))
  = int_incr (invalid_out init_scores).
Proof.
  assert (Hcl : classify (text "70000 -5") = Some (70000, -5))
    by reflexivity.
  assert (Hlen : length zero_counts = Z.to_nat (MAX_SCORE + 1))
    by apply histogram_zero_counts.
  destruct (out_of_range_scores init_scores _ _ _ Hcl Hlen Hlen)
    as (Hin & _ & _ & Hout).
  split.
  - apply Hin. reflexivity.
  - apply Hout. reflexivity.
Defined.

(** ** The median scans *)

Lemma cells_all (a : list Z) :
  length a = Z.to_nat (MAX_SCORE + 1) -> cells a = a.
Proof. intros H. unfold cells. apply take_ge. lia. Qed.

Lemma sum_counts_cons c cs : sum_counts (c :: cs) = c + sum_counts cs.
Proof. reflexivity. Qed.

Lemma dge_of_int q s t :
  Qeq q (inject_Z s) -> dge (DNum q) (d_of_int t) = (t <=? s).
Proof.
  intros Hq. unfold dge, d_of_int.
  destruct (t <=? s) eqn:E.
  - apply Qle_bool_iff. rewrite Hq. rewrite <- Zle_Qle. apply Z.leb_le, E.
  - destruct (Qle_bool (inject_Z t) q) eqn:E'; [|reflexivity].
    apply Qle_bool_iff in E'. rewrite Hq in E'. rewrite <- Zle_Qle in E'.
    apply Z.leb_gt in E. lia.
Qed.

Lemma dadd_of_int q s c :
  Qeq q (inject_Z s) ->
  exists q', dadd (DNum q) (d_of_int c) = DNum q' /\ Qeq q' (inject_Z (s + c)).
Proof.
  intros Hq. exists (q + inject_Z c)%Q. split; [reflexivity|].
  rewrite Hq, inject_Z_plus. reflexivity.
Qed.

(** The scan stops at the first score where the running sum reaches the
    threshold. *)
Lemma median_scan_reaches cs i0 q s t j :
  Qeq q (inject_Z s) -> (j < length cs)%nat ->
  t <= s + sum_counts (take (S j) cs) ->
  (forall j', (j' < j)%nat -> s + sum_counts (take (S j') cs) < t) ->
  median_scan cs i0 (DNum q) t = i0 + Z.of_nat j.
Proof.
  revert i0 q s j.
  induction cs as [|c cs IH]; intros i0 q s j Hq Hj Hreach Hbelow;
    simpl in Hj; [lia|].
  cbn [median_scan].
  destruct (dadd_of_int q s c Hq) as (q' & -> & Hq').
  rewrite (dge_of_int q' (s + c) t Hq').
  destruct j as [|j].
  - cbn [take] in Hreach. rewrite sum_counts_cons in Hreach.
    change (sum_counts (take 0 cs)) with 0 in Hreach.
    replace (t <=? s + c) with true by (symmetry; apply Z.leb_le; lia). lia.
  - pose proof (Hbelow 0%nat ltac:(lia)) as H0.
    cbn [take] in H0. rewrite sum_counts_cons in H0.
    change (sum_counts (take 0 cs)) with 0 in H0.
    replace (t <=? s + c) with false by (symmetry; apply Z.leb_gt; lia).
    rewrite (IH (i0 + 1) q' (s + c) j Hq'); [lia|lia| |].
    + cbn [take] in Hreach. rewrite sum_counts_cons in Hreach. lia.
    + intros j' Hj'. specialize (Hbelow (S j') ltac:(lia)).
      cbn [take] in Hbelow. rewrite sum_counts_cons in Hbelow. lia.
Qed.

(** A scan whose threshold is never reached runs off the end of the
    array. *)
Lemma median_scan_never cs i0 q s t :
  Qeq q (inject_Z s) ->
  (forall j, (j < length cs)%nat -> s + sum_counts (take (S j) cs) < t) ->
  median_scan cs i0 (DNum q) t = i0 + Z.of_nat (length cs).
Proof.
  revert i0 q s.
  induction cs as [|c cs IH]; intros i0 q s Hq Hbelow; cbn [median_scan].
  - simpl. lia.
  - destruct (dadd_of_int q s c Hq) as (q' & -> & Hq').
    rewrite (dge_of_int q' (s + c) t Hq').
    pose proof (Hbelow 0%nat ltac:(simpl; lia)) as H0.
    cbn [take] in H0. rewrite sum_counts_cons in H0.
    change (sum_counts (take 0 cs)) with 0 in H0.
    replace (t <=? s + c) with false by (symmetry; apply Z.leb_gt; lia).
    rewrite (IH (i0 + 1) q' (s + c) Hq').
    + cbn [length]. lia.
    + intros j Hj. specialize (Hbelow (S j) ltac:(simpl; lia)).
      cbn [take] in Hbelow. rewrite sum_counts_cons in Hbelow. lia.
Qed.

Lemma median_scan_reaches_at (a : list Z) t i :
  length a = Z.to_nat (MAX_SCORE + 1) -> reaches_at a t i ->
  median_scan (cells a) 0 (DNum 0) t = Z.of_nat i.
Proof.
  intros Hlen (Hi & Hreach & Hbelow). rewrite (cells_all a Hlen).
  rewrite (median_scan_reaches a 0 0%Q 0 t i).
  - lia.
  - reflexivity.
  - exact Hi.
  - lia.
  - intros j Hj. specialize (Hbelow j Hj). lia.
Qed.

(** C6.  For an odd total N, [avg_median] returns the score at which the
    ascending running sum of the bucket counts first reaches or exceeds
    (N+1)/2. *)
Theorem avg_median_odd (a : list Z) (N : Z) (i : nat) :
  length a = Z.to_nat (MAX_SCORE + 1) ->
  0 < N < INT_MAX -> Z.odd N = true ->
  reaches_at a ((N + 1) / 2) i ->
  avg_median a N = d_of_int (Z.of_nat i).
Proof.
  intros Hlen HN Hodd Hreach. unfold avg_median, int_rem.
  assert (Hrem : Z.rem N 2 = 1).
  { rewrite Z.rem_mod_nonneg by lia. rewrite Zmod_odd, Hodd. reflexivity. }
  rewrite Hrem. cbn [Z.eqb negb Pos.eqb].
  assert (Hthr : int_div (int_add N 1) 2 = (N + 1) / 2).
  { unfold int_div, int_add. unfold INT_MAX in HN.
    rewrite (int_wrap_id (N + 1)) by (unfold is_int, INT_MIN, INT_MAX; lia).
    rewrite Z.quot_div_nonneg by lia.
    apply int_wrap_id. unfold is_int, INT_MIN, INT_MAX.
    pose proof (Z.div_pos (N + 1) 2 ltac:(lia) ltac:(lia)).
    pose proof (Z.div_le_upper_bound (N + 1) 2 2147483647 ltac:(lia)
                  ltac:(lia)). lia. }
  rewrite Hthr, (median_scan_reaches_at a _ i Hlen Hreach). reflexivity.
Qed.

(** C5.  For an even total N > 0, [avg_median] returns (lower + upper) / 2:
    lower is the score at which the running sum first reaches or exceeds
    N/2, upper the score at which a second scan from the start first
    reaches or exceeds N/2 + 1. *)
Theorem avg_median_even (a : list Z) (N : Z) (lower upper : nat) :
  length a = Z.to_nat (MAX_SCORE + 1) ->
  0 < N <= INT_MAX -> Z.even N = true ->
  reaches_at a (N / 2) lower ->
  reaches_at a (N / 2 + 1) upper ->
  avg_median a N
  = DNum (inject_Z (Z.of_nat lower + Z.of_nat upper) / inject_Z 2).
Proof.
  intros Hlen HN Heven Hlow Hup. unfold avg_median, int_rem.
  assert (Hrem : Z.rem N 2 = 0).
  { rewrite Z.rem_mod_nonneg by lia. rewrite Zmod_even, Heven. reflexivity. }
  rewrite Hrem. cbn [Z.eqb negb].
  unfold INT_MAX in HN.
  assert (Hhalf : 0 <= N / 2 <= 1073741823).
  { split; [apply Z.div_pos; lia|].
    pose proof (Z.div_lt_upper_bound N 2 1073741824 ltac:(lia) ltac:(lia)).
    lia. }
  assert (Hthr : int_div N 2 = N / 2).
  { unfold int_div. rewrite Z.quot_div_nonneg by lia.
    apply int_wrap_id. int_range. }
  rewrite Hthr.
  assert (Hthr' : int_add (N / 2) 1 = N / 2 + 1).
  { apply int_wrap_id. int_range. }
  rewrite Hthr'.
  rewrite (median_scan_reaches_at a _ lower Hlen Hlow).
  rewrite (median_scan_reaches_at a _ upper Hlen Hup).
  destruct Hlow as (Hl & _), Hup as (Hu & _).
  rewrite Hlen, MAX_SCORE_nat in Hl, Hu.
  assert (Hsum : int_add (Z.of_nat lower) (Z.of_nat upper)
                 = Z.of_nat lower + Z.of_nat upper).
  { apply int_wrap_id. unfold is_int, INT_MIN, INT_MAX.
    unfold MAX_SCORE in Hl, Hu. lia. }
  rewrite Hsum. reflexivity.
Qed.

Lemma histogram_of_length l :
  length (histogram_of l) = Z.to_nat (MAX_SCORE + 1).
Proof.
  induction l as [|[i c] l IH]; unfold histogram_of in *; cbn [foldr].
  - apply histogram_zero_counts.
  - rewrite length_insert. exact IH.
Qed.

Lemma avg_median_odd_witness :
  avg_median (histogram_of [(0%nat, 2); (5%nat, 1); (10%nat, 2)]) 5
  = d_of_int 5.
Proof.
  apply (avg_median_odd _ 5 5%nat).
  - apply histogram_of_length.
  - unfold INT_MAX. lia.
  - reflexivity.
  - split; [|split].
    + rewrite histogram_of_length, MAX_SCORE_nat. unfold MAX_SCORE. lia.
    + vm_compute. discriminate.
    + intros j Hj.
      destruct j as [|[|[|[|[|j]]]]]; [vm_compute; reflexivity ..|lia].
Defined.

Lemma avg_median_even_witness :
  avg_median (histogram_of [(0%nat, 2); (5%nat, 1); (10%nat, 1)]) 4
  = DNum (inject_Z 5 / inject_Z 2).
Proof.
  apply (avg_median_even _ 4 0%nat 5%nat).
  - apply histogram_of_length.
  - unfold INT_MAX. lia.
  - reflexivity.
  - split; [|split].
    + rewrite histogram_of_length, MAX_SCORE_nat. unfold MAX_SCORE. lia.
    + vm_compute. discriminate.
    + intros j Hj. lia.
  - split; [|split].
    + rewrite histogram_of_length, MAX_SCORE_nat. unfold MAX_SCORE. lia.
    + vm_compute. discriminate.
    + intros j Hj.
      destruct j as [|[|[|[|[|j]]]]]; [vm_compute; reflexivity ..|lia].
Defined.

(** C10.  With no score read and an all-zero histogram, [avg_median] takes
    the even branch: the first scan stops at once (lower = 0), the second
    never reaches its threshold 1 and leaves i = MAX_SCORE + 1 = 65537, and
    the result is (0 + 65537) / 2 = 32768.5. *)
Theorem avg_median_no_scores :
  int_rem 0 2 = 0 /\
  median_scan (cells zero_counts) 0 (DNum 0) (int_div 0 2) = 0 /\
  median_scan (cells zero_counts) 0 (DNum 0) (int_add (int_div 0 2) 1)
  = MAX_SCORE + 1 /\
  avg_median zero_counts 0 = DNum (65537 # 2) /\
  deq (avg_median zero_counts 0) (DNum 32768.5).
Proof.
  split; [reflexivity|].
  split; [vm_compute; reflexivity|].
  split; [vm_compute; reflexivity|].
  assert (H : avg_median zero_counts 0 = DNum (65537 # 2))
    by (vm_compute; reflexivity).
  split; [exact H|].
  rewrite H. unfold deq. reflexivity.
Qed.

(** ** Inputs made of short lines *)

Lemma fgets_chars_line room l rest :
  (length l < room)%nat ->
  forallb (fun c => negb (Ascii.eqb c newline)) l = true ->
  fgets_chars room (l ++ newline :: rest) = (l ++ [newline], rest).
Proof.
  revert room. induction l as [|c l IH]; intros room Hlen Hnl.
  - destruct room as [|room]; [simpl in Hlen; lia|].
    cbn [app fgets_chars]. rewrite Ascii.eqb_refl. reflexivity.
  - destruct room as [|room]; [simpl in Hlen; lia|].
    cbn [forallb] in Hnl. apply andb_true_iff in Hnl as [Hc Hl].
    cbn [app fgets_chars]. apply negb_true_iff in Hc. rewrite Hc.
    rewrite IH by (simpl in Hlen; lia || exact Hl). reflexivity.
Qed.

Lemma lines_input ls :
  Forall short_line ls ->
  lines (input ls) = map (fun l => text l ++ [newline]) ls.
Proof.
  induction 1 as [|l ls [Hlen Hnl] Hls IH]; [reflexivity|].
  unfold input in *. cbn [map concat].
  rewrite (lines_cons _ (text l ++ [newline])
             (concat (map (fun l => text l ++ [newline]) ls))).
  - rewrite IH. reflexivity.
  - rewrite <- app_assoc. cbn [app]. unfold fgets.
    destruct (text l ++ newline :: _) eqn:E.
    + destruct (text l); discriminate.
    + rewrite <- E. f_equal. apply fgets_chars_line; assumption.
Qed.

(** ** The mean *)

Lemma mean_loop_weighted cs i q s :
  Qeq q (inject_Z s) ->
  (forall j c, cs !! j = Some c -> is_int ((i + Z.of_nat j) * c)) ->
  exists q', mean_loop cs i (DNum q) = DNum q' /\
             Qeq q' (inject_Z (s + weighted_sum cs i)).
Proof.
  revert i q s. induction cs as [|c cs IH]; intros i q s Hq Hfit.
  - exists q. split; [reflexivity|]. simpl. rewrite Z.add_0_r. exact Hq.
  - cbn [mean_loop weighted_sum]. unfold int_mul.
    pose proof (Hfit 0%nat c eq_refl) as H0.
    rewrite Z.add_0_r in H0. rewrite (int_wrap_id _ H0).
    destruct (dadd_of_int q s (i * c) Hq) as (q1 & -> & Hq1).
    destruct (IH (i + 1) q1 (s + i * c) Hq1) as (q' & Hloop & Hq').
    + intros j c' Hj. specialize (Hfit (S j) c' Hj).
      replace (i + 1 + Z.of_nat j) with (i + Z.of_nat (S j)) by lia.
      exact Hfit.
    + exists q'. split; [exact Hloop|].
      rewrite Hq'. f_equal. replace (s + i * c + weighted_sum cs (i + 1))
        with (s + (i * c + weighted_sum cs (i + 1))) by lia. reflexivity.
Qed.

(** As long as every product score × count fits an [int], [avg_mean] is
    the weighted average Σ score × count / N. *)
Lemma avg_mean_weighted (a : list Z) (N : Z) :
  length a = Z.to_nat (MAX_SCORE + 1) ->
  (forall j c, a !! j = Some c -> is_int (Z.of_nat j * c)) ->
  N <> 0 ->
  deq (avg_mean a N) (DNum (inject_Z (weighted_sum a 0) / inject_Z N)).
Proof.
  intros Hlen Hfit HN. unfold avg_mean. rewrite (cells_all a Hlen).
  destruct (mean_loop_weighted a 0 0%Q 0) as (q' & -> & Hq').
  - reflexivity.
  - intros j c Hj. rewrite Z.add_0_l. apply (Hfit j c Hj).
  - unfold ddiv, d_of_int, Qis_zero. cbn [Qnum inject_Z].
    replace (N =? 0) with false by (symmetry; apply Z.eqb_neq; exact HN).
    unfold deq. rewrite Hq', Z.add_0_l. reflexivity.
Qed.

(** The example of the specification: one request with score 5 and one
    with score 10 have the mean 7.5. *)
Lemma avg_mean_example :
  deq (avg_mean (histogram_of [(5%nat, 1); (10%nat, 1)]) 2) (DNum 7.5).
Proof. vm_compute. reflexivity. Qed.

(** ** Many requests with the top score *)

Lemma fold_left_replicate_snoc {A B} (f : A -> B -> A) n x st :
  fold_left f (replicate (S n) x) st = f (fold_left f (replicate n x) st) x.
Proof.
  revert st. induction n as [|n IH]; intros st; [reflexivity|].
  change (replicate (S (S n)) x) with (x :: replicate (S n) x).
  cbn [fold_left]. rewrite IH. reflexivity.
Qed.

Lemma top_score_requests n :
  Z.of_nat n <= INT_MAX ->
  fold_left loop_body (replicate n (text "65536 0" ++ [newline])) init_scores
  = Scores (<[Z.to_nat MAX_SCORE := Z.of_nat n]> zero_counts)
           (<[0%nat := Z.of_nat n]> zero_counts) 0 0 (Z.of_nat n).
Proof.
  assert (Hlen : length zero_counts = S (Z.to_nat MAX_SCORE)).
  { rewrite <- MAX_SCORE_nat. apply histogram_zero_counts. }
  induction n as [|n IH]; intros Hn.
  - cbn [replicate fold_left Z.of_nat].
    assert (Hid : forall i, (i < S (Z.to_nat MAX_SCORE))%nat ->
                            <[i := 0]> zero_counts = zero_counts).
    { intros i Hi. apply list_insert_id. unfold zero_counts.
      apply lookup_replicate. split; [reflexivity|].
      rewrite MAX_SCORE_nat. exact Hi. }
    rewrite !Hid by lia. reflexivity.
  - rewrite fold_left_replicate_snoc, IH by lia.
    unfold loop_body.
    replace (classify (text "65536 0" ++ [newline])) with (Some (65536, 0))
      by reflexivity.
    cbn [score_count_in score_count_out invalid_in invalid_out count].
    unfold store_score.
    replace (65536 <? 0) with false by reflexivity.
    replace (MAX_SCORE <? 65536) with false by reflexivity.
    replace (0 <? 0) with false by reflexivity.
    replace (MAX_SCORE <? 0) with false by reflexivity.
    replace (Z.to_nat 65536) with (Z.to_nat MAX_SCORE) by reflexivity.
    replace (Z.to_nat 0) with 0%nat by reflexivity.
    rewrite !list_lookup_total_insert_eq by lia.
    rewrite !list_insert_insert_eq.
    rewrite int_incr_id by (unfold INT_MIN; lia).
    replace (Z.of_nat n + 1) with (Z.of_nat (S n)) by lia. reflexivity.
Qed.

Lemma map_replicate {A B} (f : A -> B) n x :
  map f (replicate n x) = replicate n (f x).
Proof. induction n as [|n IH]; [reflexivity|]. simpl. rewrite IH. reflexivity. Qed.

Lemma heavy_input_scores :
  main_scores heavy_input
  = Scores (histogram_of [(Z.to_nat MAX_SCORE, 32768)])
           (histogram_of [(0%nat, 32768)]) 0 0 32768.
Proof.
  rewrite main_scores_fold. unfold heavy_input.
  rewrite lines_input.
  - rewrite map_replicate, top_score_requests by (unfold INT_MAX; lia).
    rewrite Z2Nat.id by lia. reflexivity.
  - apply Forall_replicate. split; [vm_compute; lia|reflexivity].
Qed.

(** C7, where the code departs from it.  After 32768 requests with the
    inbound score 65536 the sum Σ score × count is 65536 × 32768 = 2^31 and
    the mean is 65536; the code forms the product in [int] arithmetic, where
    it wraps to -2^31, and returns -65536. *)
Theorem avg_mean_int_overflow :
  score_count_in (main_scores heavy_input)
  = histogram_of [(Z.to_nat MAX_SCORE, 32768)] /\
  count (main_scores heavy_input) = 32768 /\
  weighted_sum (histogram_of [(Z.to_nat MAX_SCORE, 32768)]) 0
  = 65536 * 32768 /\
  deq (mean (fst (main heavy_input))) (DNum (-65536)).
Proof.
  unfold main. rewrite heavy_input_scores.
  cbn [score_count_in count fst print_stats print_side mean].
  split; [reflexivity|]. split; [reflexivity|].
  split; [vm_compute; reflexivity|].
  vm_compute. reflexivity.
Qed.

(** ** The cumulative column *)

Lemma percent_number x N :
  N <> 0 -> percent x N = DNum (inject_Z 100 * (inject_Z x / inject_Z N)).
Proof.
  intros HN. unfold percent, ddiv, dmul, d_of_int, Qis_zero.
  cbn [Qnum inject_Z].
  replace (N =? 0) with false by (symmetry; apply Z.eqb_neq; exact HN).
  reflexivity.
Qed.

Lemma percent_mono x y N :
  0 < N -> x <= y -> dle (percent x N) (percent y N).
Proof.
  intros HN Hxy. rewrite !percent_number by lia. unfold dle.
  apply Qmult_le_l; [reflexivity|].
  unfold Qdiv. apply Qmult_le_compat_r.
  - rewrite <- Zle_Qle. exact Hxy.
  - apply Qinv_le_0_compat. replace 0%Q with (inject_Z 0) by reflexivity.
    rewrite <- Zle_Qle. lia.
Qed.

Lemma percent_full N : 0 < N -> deq (percent N N) (DNum 100).
Proof.
  intros HN. rewrite percent_number by lia. unfold deq, Qdiv.
  rewrite Qmult_inv_r.
  - reflexivity.
  - replace 0%Q with (inject_Z 0) by reflexivity. rewrite inject_Z_injective.
    lia.
Qed.

Lemma score_rows_cumulative cs i running_total N :
  Forall (fun c => 0 <= c) cs -> 0 <= running_total ->
  running_total + sum_counts cs <= INT_MAX -> 0 < N ->
  nondecreasing (percent running_total N
                   :: map row_cumulative (score_rows cs i running_total N)) /\
  last (percent running_total N
          :: map row_cumulative (score_rows cs i running_total N))
  = Some (percent (running_total + sum_counts cs) N).
Proof.
  intros Hpos. revert i running_total.
  induction Hpos as [|c cs Hc Hcs IH]; intros i rt Hrt Hsum HN.
  - cbn [score_rows map]. split; [exact I|].
    change (sum_counts []) with 0. rewrite Z.add_0_r. reflexivity.
  - rewrite sum_counts_cons in *. cbn [score_rows].
    pose proof (sum_counts_nonneg cs Hcs) as Hs.
    destruct (c =? 0) eqn:E; cbn [negb].
    + apply Z.eqb_eq in E. subst c. rewrite Z.add_0_l in *.
      apply IH; assumption.
    + assert (Hadd : int_add rt c = rt + c).
      { apply int_wrap_id. unfold is_int, INT_MIN. lia. }
      rewrite Hadd. cbn [map row_cumulative].
      destruct (IH (i + 1) (rt + c)) as [Hnd Hlast]; try lia.
      split.
      * split; [apply percent_mono; lia|exact Hnd].
      * rewrite last_cons_cons, Hlast. f_equal. f_equal. lia.
Qed.

(** The column of one table never decreases and ends at the percentage
    of all the records the table shows. *)
Lemma cumulatives_print_side (a : list Z) (invalid N : Z) :
  histogram a -> 0 <= invalid -> invalid + sum_counts a <= INT_MAX ->
  0 < N ->
  nondecreasing (cumulatives (print_side a invalid N)) /\
  last (cumulatives (print_side a invalid N))
  = Some (percent (invalid + sum_counts a) N).
Proof.
  intros [Hlen Hpos] Hinv Hsum HN.
  unfold cumulatives, print_side. cbn [rows map row_cumulative].
  rewrite (cells_all a Hlen).
  apply score_rows_cumulative; assumption.
Qed.

(** C8.  For an aggregate with total N > 0 (a histogram and an invalid
    count that share out the N records), the cumulative percentages of a
    table, from the invalid row down the score rows, never decrease, and
    the last of them is exactly 100. *)
Theorem cumulative_reaches_100 (a : list Z) (invalid N : Z) :
  histogram a -> 0 <= invalid -> sum_counts a + invalid = N ->
  0 < N <= INT_MAX ->
  nondecreasing (cumulatives (print_side a invalid N)) /\
  exists x, last (cumulatives (print_side a invalid N)) = Some x /\
            deq x (DNum 100).
Proof.
  intros Ha Hinv Hsum HN.
  destruct (cumulatives_print_side a invalid N Ha Hinv) as [Hnd Hlast];
    try lia.
  split; [exact Hnd|].
  exists (percent (invalid + sum_counts a) N). split; [exact Hlast|].
  replace (invalid + sum_counts a) with N by lia.
  apply percent_full. lia.
Qed.

(** Both tables of every run with at least one classified line. *)
Lemma main_cumulative (stdin : list ascii) :
  0 < Z.of_nat (length (List.filter classified (lines stdin))) <= INT_MAX ->
  (nondecreasing (cumulatives (fst (main stdin))) /\
   exists x, last (cumulatives (fst (main stdin))) = Some x /\
             deq x (DNum 100)) /\
  (nondecreasing (cumulatives (snd (main stdin))) /\
   exists x, last (cumulatives (snd (main stdin))) = Some x /\
             deq x (DNum 100)).
Proof.
  intros Hn. unfold main, print_stats. cbn [fst snd].
  pose proof (fold_loop_body_accumulates (lines stdin) init_scores 0
                accumulated_init) as H.
  rewrite Z.add_0_l, <- main_scores_fold in H. specialize (H (proj2 Hn)).
  destruct H as (Hin & Hout & Hiin & Hiout & Hsin & Hsout & Hc).
  rewrite Hc.
  set (n := Z.of_nat (length (List.filter classified (lines stdin)))) in *.
  split.
  - destruct (cumulatives_print_side _ (invalid_in (main_scores stdin)) n Hin)
      as [Hnd Hlast]; try lia.
    split; [exact Hnd|]. eexists. split; [exact Hlast|].
    replace (invalid_in (main_scores stdin)
             + sum_counts (score_count_in (main_scores stdin))) with n by lia.
    apply percent_full. lia.
  - destruct (cumulatives_print_side _ (invalid_out (main_scores stdin)) n
                Hout) as [Hnd Hlast]; try lia.
    split; [exact Hnd|]. eexists. split; [exact Hlast|].
    replace (invalid_out (main_scores stdin)
             + sum_counts (score_count_out (main_scores stdin))) with n by lia.
    apply percent_full. lia.
Qed.

Lemma histogram_of_histogram l :
  Forall (fun ic => 0 <= snd ic) l -> histogram (histogram_of l).
Proof.
  intros Hl. split; [apply histogram_of_length|].
  induction Hl as [|[i c] l Hc Hl IH]; unfold histogram_of in *; cbn [foldr].
  - apply histogram_zero_counts.
  - apply Forall_insert; [exact IH|exact Hc].
Qed.

Lemma cumulative_reaches_100_witness :
  nondecreasing
    (cumulatives (print_side (histogram_of [(0%nat, 2); (10%nat, 3)]) 1 6)) /\
  exists x,
    last (cumulatives
            (print_side (histogram_of [(0%nat, 2); (10%nat, 3)]) 1 6))
    = Some x /\ deq x (DNum 100).
Proof.
  apply cumulative_reaches_100.
  - apply histogram_of_histogram.
    repeat (apply List.Forall_cons; [simpl; lia|]). apply List.Forall_nil.
  - lia.
  - vm_compute. reflexivity.
  - unfold INT_MAX. lia.
Defined.

(** ** No record at all *)

Lemma fold_loop_body_unclassified bufs st :
  Forall (fun line_buf => classified line_buf = false) bufs ->
  fold_left loop_body bufs st = st.
Proof.
  induction 1 as [|b bufs Hb Hbufs IH]; [reflexivity|].
  cbn [fold_left]. rewrite loop_body_skips; [exact IH|].
  unfold classified in Hb. destruct (classify b); [discriminate|reflexivity].
Qed.

Lemma print_side_nothing :
  print_side zero_counts 0 0
  = SideReport 0 [Row None 0 DNaN DNaN DNaN] DNaN (DNum (65537 # 2)).
Proof. vm_compute. reflexivity. Qed.

Lemma main_nothing stdin :
  Forall (fun line_buf => classified line_buf = false) (lines stdin) ->
  main stdin = (print_side zero_counts 0 0, print_side zero_counts 0 0).
Proof.
  intros Hnone. unfold main. rewrite main_scores_fold.
  rewrite (fold_loop_body_unclassified _ _ Hnone). reflexivity.
Qed.

(** C4, as the code has it.  When no line is classified (the input is empty
    or every line is malformed) the total is 0 and nothing is special-cased:
    the percentages of the invalid row and the mean are 0/0, that is NaN,
    no score row is printed, and the median is 32768.5. *)
Theorem zero_total_report (stdin : list ascii) :
  Forall (fun line_buf => classified line_buf = false) (lines stdin) ->
  main stdin = (print_side zero_counts 0 0, print_side zero_counts 0 0) /\
  total_requests (print_side zero_counts 0 0) = 0 /\
  rows (print_side zero_counts 0 0) = [Row None 0 DNaN DNaN DNaN] /\
  mean (print_side zero_counts 0 0) = DNaN /\
  median (print_side zero_counts 0 0) = DNum (65537 # 2).
Proof.
  intros Hnone. split; [apply main_nothing; exact Hnone|].
  rewrite print_side_nothing. repeat split.
Qed.

Lemma zero_total_report_witness :
  main (input ["abc"; "x 1"; "- -"]%string)
  = (print_side zero_counts 0 0, print_side zero_counts 0 0) /\
  mean (print_side zero_counts 0 0) = DNaN.
Proof.
  assert (H : Forall (fun line_buf => classified line_buf = false)
                (lines (input ["abc"; "x 1"; "- -"]%string))).
  { rewrite lines_input.
    - repeat (apply List.Forall_cons; [reflexivity|]). apply List.Forall_nil.
    - repeat (apply List.Forall_cons;
                [split; [vm_compute; lia|reflexivity]|]).
      apply List.Forall_nil. }
  destruct (zero_total_report _ H) as (Hmain & _ & _ & Hmean & _).
  split; [exact Hmain|exact Hmean].
Defined.

(** On the empty input the mean and the percentages of the table are NaN:
    the division by the zero total is carried out. *)
Lemma empty_input_divides_by_zero :
  count (main_scores []) = 0 /\
  mean (fst (main [])) = DNaN /\
  map row_percent (rows (fst (main []))) = [DNaN] /\
  map row_cumulative (rows (fst (main []))) = [DNaN].
Proof.
  split; [reflexivity|].
  rewrite (main_nothing [] (List.Forall_nil _)). cbn [fst].
  rewrite print_side_nothing. repeat split.
Qed.

(** ** [digit_width] *)

Lemma int_div_10 n : 0 <= n <= INT_MAX -> int_div n 10 = n / 10.
Proof.
  intros Hn. unfold int_div. rewrite Z.quot_div_nonneg by lia.
  apply int_wrap_id.
  pose proof (Z.div_pos n 10 ltac:(lia) ltac:(lia)).
  pose proof (Z.div_le_upper_bound n 10 n ltac:(lia) ltac:(lia)).
  int_range.
Qed.

(** The loop counts the digits after the first: it adds [d] to [width],
    where [10^d <= n < 10^(d+1)] (or [d = 0] for [n < 10]). *)
Lemma digit_width_loop_digits fuel n width :
  0 <= n <= INT_MAX -> n < 10 ^ Z.of_nat fuel ->
  INT_MIN <= width -> width + Z.of_nat fuel <= INT_MAX ->
  exists d, digit_width_loop fuel n width = width + d /\
            0 <= d <= Z.of_nat fuel /\
            n < 10 ^ (d + 1) /\ (d = 0 \/ 10 ^ d <= n).
Proof.
  revert n width. induction fuel as [|fuel IH]; intros n width Hn Hpow Hw1 Hw2.
  - exists 0. cbn [digit_width_loop]. change (10 ^ Z.of_nat 0) with 1 in Hpow.
    change (10 ^ (0 + 1)) with 10. lia.
  - cbn [digit_width_loop]. destruct (9 <? n) eqn:E.
    + apply Z.ltb_lt in E.
      rewrite int_div_10 by exact Hn.
      rewrite int_incr_id by lia.
      assert (Hq : 0 <= n / 10 <= INT_MAX).
      { pose proof (Z.div_pos n 10 ltac:(lia) ltac:(lia)).
        pose proof (Z.div_le_upper_bound n 10 n ltac:(lia) ltac:(lia)). lia. }
      assert (Hqp : n / 10 < 10 ^ Z.of_nat fuel).
      { apply Z.div_lt_upper_bound; [lia|].
        rewrite Nat2Z.inj_succ, Z.pow_succ_r in Hpow by lia. exact Hpow. }
      destruct (IH (n / 10) (width + 1) Hq Hqp) as (d & Hr & Hd & Hlt & Hge);
        try lia.
      exists (d + 1). rewrite Hr.
      pose proof (Z.div_mod n 10 ltac:(lia)) as Hdm.
      pose proof (Z.mod_pos_bound n 10 ltac:(lia)) as Hm.
      split; [lia|]. split; [lia|]. split.
      * replace (d + 1 + 1) with (Z.succ (d + 1)) by lia.
        rewrite Z.pow_succ_r by lia. lia.
      * right. replace (d + 1) with (Z.succ d) by lia.
        rewrite Z.pow_succ_r by lia.
        destruct Hge as [-> | Hge]; [change (10 ^ 0) with 1; lia|lia].
    + apply Z.ltb_ge in E. exists 0. change (10 ^ (0 + 1)) with 10. lia.
Qed.

Lemma digit_width_loop_extra fuel n width :
  0 <= n <= INT_MAX -> n < 10 ^ Z.of_nat fuel ->
  digit_width_loop (S fuel) n width = digit_width_loop fuel n width.
Proof.
  revert n width. induction fuel as [|fuel IH]; intros n width Hn Hpow.
  - change (10 ^ Z.of_nat 0) with 1 in Hpow. cbn [digit_width_loop].
    replace (9 <? n) with false by (symmetry; apply Z.ltb_ge; lia).
    reflexivity.
  - cbn [digit_width_loop]. destruct (9 <? n) eqn:E; [|reflexivity].
    rewrite int_div_10 by exact Hn.
    change (if 9 <? n / 10
            then digit_width_loop fuel (int_div (n / 10) 10)
                   (int_incr (int_incr width))
            else int_incr width)
      with (digit_width_loop (S fuel) (n / 10) (int_incr width)).
    apply IH.
    + pose proof (Z.div_pos n 10 ltac:(lia) ltac:(lia)).
      pose proof (Z.div_le_upper_bound n 10 n ltac:(lia) ltac:(lia)). lia.
    + apply Z.div_lt_upper_bound; [lia|].
      rewrite Nat2Z.inj_succ, Z.pow_succ_r in Hpow by lia. exact Hpow.
Qed.

(** More than ten rounds are never used: the loop has ended by then. *)
Lemma digit_width_loop_fuel fuel n width :
  0 <= n <= INT_MAX -> (10 <= fuel)%nat ->
  digit_width_loop fuel n width = digit_width_loop 10 n width.
Proof.
  intros Hn Hfuel. induction Hfuel as [|fuel Hfuel IH]; [reflexivity|].
  rewrite digit_width_loop_extra; [exact IH|exact Hn|].
  eapply Z.lt_le_trans with (10 ^ Z.of_nat 10).
  - unfold INT_MAX in Hn. change (10 ^ Z.of_nat 10) with 10000000000. lia.
  - apply Z.pow_le_mono_r; lia.
Qed.

Lemma digit_width_nonneg n :
  0 <= n <= INT_MAX ->
  exists d, digit_width n = 1 + d /\ 0 <= d <= 9 /\
            n < 10 ^ (d + 1) /\ (d = 0 \/ 10 ^ d <= n).
Proof.
  intros Hn. unfold digit_width.
  replace (n <? 0) with false by (symmetry; apply Z.ltb_ge; lia).
  destruct (digit_width_loop_digits 10 n 1 Hn) as (d & Hr & Hd & Hlt & Hge).
  - unfold INT_MAX in Hn. change (10 ^ Z.of_nat 10) with 10000000000. lia.
  - unfold INT_MIN. lia.
  - unfold INT_MAX. lia.
  - exists d. rewrite Hr. repeat split; try tauto; try lia.
    assert (d <> 10); [|lia].
    intros ->. destruct Hge as [?|Hge]; [lia|].
    change (10 ^ 10) with 10000000000 in Hge. unfold INT_MAX in Hn. lia.
Qed.

(** X1.  [digit_width n] is the number of decimal digits of [|n|] (1 for
    0), for every [int] except [INT_MIN], whose negation is not an [int]:
    the sign takes no room. *)
Theorem digit_width_counts_digits (n : Z) :
  INT_MIN < n <= INT_MAX ->
  1 <= digit_width n <= 10 /\
  Z.abs n < 10 ^ digit_width n /\
  (n = 0 \/ 10 ^ (digit_width n - 1) <= Z.abs n).
Proof.
  intros Hn.
  assert (Habs : digit_width n = digit_width (Z.abs n)).
  { unfold digit_width. destruct (n <? 0) eqn:E.
    - apply Z.ltb_lt in E. unfold int_mul.
      rewrite int_wrap_id by int_range.
      replace (n * -1) with (Z.abs n) by lia.
      replace (Z.abs n <? 0) with false by (symmetry; apply Z.ltb_ge; lia).
      reflexivity.
    - pose proof (proj1 (Z.ltb_ge _ _) E) as E'.
      rewrite Z.abs_eq by lia. rewrite E. reflexivity. }
  destruct (digit_width_nonneg (Z.abs n)) as (d & Hr & Hd & Hlt & Hge);
    [unfold INT_MIN, INT_MAX in *; lia|].
  rewrite Habs, Hr.
  replace (1 + d) with (d + 1) by lia. replace (d + 1 - 1) with d by lia.
  split; [lia|]. split; [exact Hlt|].
  destruct (Z.eq_dec n 0) as [->|Hnz]; [left; reflexivity|right].
  destruct Hge as [->|Hge]; [change (10 ^ 0) with 1; lia|exact Hge].
Qed.

Lemma digit_width_counts_digits_witness :
  digit_width (-231) = 3 /\ Z.abs (-231) < 10 ^ digit_width (-231).
Proof.
  assert (H : INT_MIN < -231 <= INT_MAX) by (unfold INT_MIN, INT_MAX; lia).
  destruct (digit_width_counts_digits (-231) H) as (_ & Hlt & _).
  split; [reflexivity|exact Hlt].
Defined.


(** ** The column widths *)

Lemma width_scan_last (l : list Z) :
  0 <= width_scan (rev l) (Z.of_nat (length l)) <= Z.of_nat (length l) /\
  (forall k, width_scan (rev l) (Z.of_nat (length l)) <= Z.of_nat k ->
             (k < length l)%nat -> l !! k = Some 0) /\
  (width_scan (rev l) (Z.of_nat (length l)) = 0 \/
   exists c, l !! Z.to_nat (width_scan (rev l) (Z.of_nat (length l)) - 1)
             = Some c /\ c <> 0).
Proof.
  induction l as [|c l IH] using rev_ind.
  - cbn. split; [lia|]. split; [intros; lia|left; reflexivity].
  - rewrite rev_unit, length_app. cbn [length width_scan].
    replace (length l + 1)%nat with (S (length l)) by lia.
    destruct (c =? 0) eqn:E; cbn [negb].
    + apply Z.eqb_eq in E. subst c.
      replace (Z.of_nat (S (length l)) - 1) with (Z.of_nat (length l)) by lia.
      destruct IH as (Hr & Hz & Hnz). split; [lia|]. split.
      * intros k Hk Hlt. destruct (decide (k = length l)) as [->|Hne].
        -- rewrite lookup_app_r, Nat.sub_diag by lia. reflexivity.
        -- rewrite lookup_app_l by lia. apply Hz; lia.
      * destruct Hnz as [H0|(c & Hc & Hcnz)]; [left; exact H0|right].
        exists c. split; [|exact Hcnz].
        rewrite lookup_app_l; [exact Hc|]. apply lookup_lt_Some in Hc. exact Hc.
    + apply Z.eqb_neq in E. split; [lia|]. split; [intros; lia|right].
      exists c. split; [|exact E].
      replace (Z.to_nat (Z.of_nat (S (length l)) - 1)) with (length l) by lia.
      rewrite lookup_app_r, Nat.sub_diag by lia. reflexivity.
Qed.

Lemma drop_1_lookup (a : list Z) k : drop 1 a !! k = a !! S k.
Proof. rewrite lookup_drop. reflexivity. Qed.

Lemma drop_1_length (a : list Z) :
  length a = Z.to_nat (MAX_SCORE + 1) ->
  Z.of_nat (length (drop 1 a)) = MAX_SCORE.
Proof.
  intros Hlen. rewrite MAX_SCORE_nat in Hlen.
  rewrite length_drop, Hlen. unfold MAX_SCORE. lia.
Qed.

(** No score above [largest_score] has a count. *)
Lemma largest_score_bounds (a : list Z) :
  length a = Z.to_nat (MAX_SCORE + 1) ->
  0 <= largest_score a <= MAX_SCORE /\
  forall j c, largest_score a < j -> a !! Z.to_nat j = Some c -> c = 0.
Proof.
  intros Hlen. unfold largest_score. rewrite (cells_all a Hlen).
  pose proof (width_scan_last (drop 1 a)) as H.
  rewrite (drop_1_length a Hlen) in H. destruct H as (Hr & Hz & _).
  split; [exact Hr|]. intros j c Hj Hc.
  pose proof (lookup_lt_Some _ _ _ Hc) as Hlt.
  rewrite Hlen, MAX_SCORE_nat in Hlt.
  replace (Z.to_nat j) with (S (Z.to_nat (j - 1))) in Hc by lia.
  rewrite <- drop_1_lookup in Hc. rewrite Hz in Hc.
  - congruence.
  - lia.
  - apply Nat2Z.inj_lt. rewrite (drop_1_length a Hlen).
    unfold MAX_SCORE in *. lia.
Qed.

(** X2.  The score whose width sets the score column is the largest score
    with a non-zero count, or 0 when only bucket 0 (or no bucket at all)
    is non-zero. *)
Theorem largest_score_is_largest (a : list Z) :
  length a = Z.to_nat (MAX_SCORE + 1) ->
  0 <= largest_score a <= MAX_SCORE /\
  (forall j, largest_score a < j <= MAX_SCORE -> a !!! Z.to_nat j = 0) /\
  (largest_score a = 0 \/ a !!! Z.to_nat (largest_score a) <> 0).
Proof.
  intros Hlen.
  destruct (largest_score_bounds a Hlen) as (Hr & Hz).
  split; [exact Hr|]. split.
  - intros j Hj.
    destruct (lookup_lt_is_Some_2 a (Z.to_nat j)) as [c Hc].
    { rewrite Hlen, MAX_SCORE_nat. lia. }
    rewrite (list_lookup_total_correct _ _ _ Hc). apply (Hz j c); tauto.
  - unfold largest_score in *. rewrite (cells_all a Hlen) in *.
    pose proof (width_scan_last (drop 1 a)) as H.
    rewrite (drop_1_length a Hlen) in H. destruct H as (_ & _ & Hnz).
    destruct Hnz as [H0|(c & Hc & Hcnz)]; [left; exact H0|].
    destruct (Z.eq_dec (width_scan (rev (drop 1 a)) MAX_SCORE) 0) as [H0|Hne];
      [left; exact H0|right].
    rewrite drop_1_lookup in Hc.
    replace (S (Z.to_nat (width_scan (rev (drop 1 a)) MAX_SCORE - 1)))
      with (Z.to_nat (width_scan (rev (drop 1 a)) MAX_SCORE)) in Hc by lia.
    rewrite (list_lookup_total_correct _ _ _ Hc). exact Hcnz.
Qed.

Lemma largest_score_is_largest_witness :
  largest_score (histogram_of [(0%nat, 2); (231%nat, 6)]) <= MAX_SCORE /\
  (largest_score (histogram_of [(0%nat, 2); (231%nat, 6)]) = 0 \/
   histogram_of [(0%nat, 2); (231%nat, 6)]
     !!! Z.to_nat (largest_score (histogram_of [(0%nat, 2); (231%nat, 6)]))
   <> 0).
Proof.
  destruct (largest_score_is_largest (histogram_of [(0%nat, 2); (231%nat, 6)])
              (histogram_of_length _)) as ((_ & Hle) & _ & Hnz).
  split; [exact Hle|exact Hnz].
Defined.

(** ** The rows of a table *)

Lemma score_rows_buckets cs i running_total N :
  map (fun r => (row_score r, row_count r)) (score_rows cs i running_total N)
  = map (fun sc => (Some (fst sc), snd sc))
        (List.filter (fun sc => negb (snd sc =? 0)) (indexed cs i)).
Proof.
  revert i running_total.
  induction cs as [|c cs IH]; intros i rt; [reflexivity|].
  cbn [score_rows indexed List.filter snd].
  destruct (negb (c =? 0)).
  - cbn [map row_score row_count fst snd]. f_equal. apply IH.
  - apply IH.
Qed.

Lemma indexed_lookup cs i s c :
  In (s, c) (indexed cs i) <->
  i <= s /\ cs !! Z.to_nat (s - i) = Some c.
Proof.
  revert i. induction cs as [|x cs IH]; intros i; cbn [indexed In].
  - split; [tauto|]. intros [_ H]. discriminate.
  - rewrite IH. split.
    + intros [H|[Hs Hc]].
      * injection H as <- <-. rewrite Z.sub_diag. split; [lia|reflexivity].
      * split; [lia|].
        replace (Z.to_nat (s - i)) with (S (Z.to_nat (s - (i + 1)))) by lia.
        exact Hc.
    + intros [Hs Hc]. destruct (Z.eq_dec s i) as [->|Hne].
      * rewrite Z.sub_diag in Hc. injection Hc as ->. left. reflexivity.
      * right. split; [lia|].
        replace (Z.to_nat (s - i)) with (S (Z.to_nat (s - (i + 1)))) in Hc
          by lia.
        exact Hc.
Qed.

(** A score is listed exactly when its count is not zero. *)
Lemma nonzero_buckets_spec (a : list Z) s c :
  In (s, c) (nonzero_buckets a) <->
  0 <= s /\ a !! Z.to_nat s = Some c /\ c <> 0.
Proof.
  unfold nonzero_buckets. rewrite filter_In, indexed_lookup, Z.sub_0_r.
  cbn [snd]. rewrite negb_true_iff, Z.eqb_neq. tauto.
Qed.

Lemma filter_indexed_from cs i s :
  In s (map fst (List.filter (fun sc => negb (snd sc =? 0)) (indexed cs i))) ->
  i <= s.
Proof.
  revert i. induction cs as [|y cs IH]; intros i; [intros []|].
  cbn [indexed List.filter snd]. destruct (negb (y =? 0)).
  - cbn [map fst In]. intros [<-|H]; [lia|]. specialize (IH _ H). lia.
  - intros H. specialize (IH _ H). lia.
Qed.

Lemma filter_indexed_sorted cs i :
  StronglySorted Z.lt
    (map fst (List.filter (fun sc => negb (snd sc =? 0)) (indexed cs i))).
Proof.
  revert i. induction cs as [|x cs IH]; intros i; [constructor|].
  cbn [indexed List.filter snd]. destruct (negb (x =? 0)); [|apply IH].
  cbn [map fst]. constructor; [apply IH|].
  apply List.Forall_forall. intros s Hs.
  pose proof (filter_indexed_from _ _ _ Hs). lia.
Qed.

(** X3.  A table lists the invalid row first and then, in ascending order
    of the score, exactly the scores with a non-zero count, each with its
    count; scores that did not occur have no row. *)
Theorem table_lists_nonzero_buckets (a : list Z) (invalid N : Z) :
  length a = Z.to_nat (MAX_SCORE + 1) ->
  map (fun r => (row_score r, row_count r)) (rows (print_side a invalid N))
  = (None, invalid)
      :: map (fun sc => (Some (fst sc), snd sc)) (nonzero_buckets a) /\
  StronglySorted Z.lt (map fst (nonzero_buckets a)) /\
  (forall s c, In (s, c) (nonzero_buckets a) <->
               0 <= s /\ a !! Z.to_nat s = Some c /\ c <> 0).
Proof.
  intros Hlen. split; [|split].
  - unfold print_side. cbn [rows map row_score row_count].
    rewrite (cells_all a Hlen), score_rows_buckets. reflexivity.
  - apply filter_indexed_sorted.
  - apply nonzero_buckets_spec.
Qed.

Lemma table_lists_nonzero_buckets_witness :
  map (fun r => (row_score r, row_count r))
      (rows (print_side (histogram_of [(0%nat, 2); (10%nat, 3)]) 1 6))
  = [(None, 1); (Some 0, 2); (Some 10, 3)].
Proof.
  destruct (table_lists_nonzero_buckets
              (histogram_of [(0%nat, 2); (10%nat, 3)]) 1 6
              (histogram_of_length _)) as (Hrows & _ & _).
  rewrite Hrows. vm_compute. reflexivity.
Defined.

(** ** Column widths against the rows *)

Lemma score_rows_in cs i running_total N r :
  In r (score_rows cs i running_total N) ->
  exists k c, cs !! k = Some c /\ c <> 0 /\
              row_score r = Some (i + Z.of_nat k) /\ row_count r = c.
Proof.
  revert i running_total.
  induction cs as [|x cs IH]; intros i rt; [intros []|].
  cbn [score_rows]. destruct (x =? 0) eqn:E; cbn [negb].
  - intros H. destruct (IH _ _ H) as (k & c & Hk & Hc & Hs & Hn).
    exists (S k), c. repeat split; try assumption. rewrite Hs. f_equal. lia.
  - intros [<-|H].
    + exists 0%nat, x. cbn [row_score row_count]. apply Z.eqb_neq in E.
      repeat split; try assumption. f_equal. lia.
    + destruct (IH _ _ H) as (k & c & Hk & Hc & Hs & Hn).
      exists (S k), c. repeat split; try assumption. rewrite Hs. f_equal. lia.
Qed.

Lemma digit_width_mono m n :
  0 <= m <= n -> n <= INT_MAX -> digit_width m <= digit_width n.
Proof.
  intros Hmn Hn.
  destruct (digit_width_nonneg m) as (dm & -> & Hdm & Hltm & Hgem); [lia|].
  destruct (digit_width_nonneg n) as (dn & -> & Hdn & Hltn & Hgen); [lia|].
  destruct (Z_le_gt_dec dm dn) as [Hle|Hgt]; [lia|exfalso].
  destruct Hgem as [->|Hgem]; [lia|].
  assert (10 ^ (dn + 1) <= 10 ^ dm) by (apply Z.pow_le_mono_r; lia).
  lia.
Qed.

Lemma print_side_fits (a : list Z) (invalid N : Z) :
  histogram a -> 0 <= invalid -> sum_counts a + invalid = N ->
  N <= INT_MAX ->
  Forall (fits (digit_width (largest_score a)) (digit_width N))
         (rows (print_side a invalid N)).
Proof.
  intros [Hlen Hpos] Hinv Hsum HN.
  pose proof (sum_counts_nonneg a Hpos) as Hs.
  destruct (largest_score_bounds a Hlen) as (Hr & Hz).
  unfold print_side. cbn [rows]. rewrite (cells_all a Hlen).
  apply List.Forall_cons.
  - split; cbn [row_count row_score]; [|discriminate].
    apply digit_width_mono; lia.
  - apply List.Forall_forall. intros r Hin.
    destruct (score_rows_in _ _ _ _ _ Hin) as (k & c & Hk & Hc & Hscore & Hcount).
    pose proof (lookup_lt_Some _ _ _ Hk) as Hlt.
    pose proof (lookup_total_bounds a k Hpos Hlt) as Hb.
    rewrite (list_lookup_total_correct _ _ _ Hk) in Hb.
    split.
    + rewrite Hcount. apply digit_width_mono; lia.
    + intros s Hs'. rewrite Hscore in Hs'. injection Hs' as <-.
      rewrite Z.add_0_l.
      apply digit_width_mono; [|unfold MAX_SCORE, INT_MAX in *; lia].
      split; [lia|].
      destruct (Z_le_gt_dec (Z.of_nat k) (largest_score a)) as [Hle|Hgt];
        [exact Hle|exfalso].
      apply Hc. apply (Hz (Z.of_nat k)); [lia|].
      rewrite Nat2Z.id. exact Hk.
Qed.

(** X4.  The widths [print_stats] computes are wide enough: in both tables
    every score printed is no wider than the score column of its table, and
    every count (the invalid count included) no wider than the count
    column, so the columns line up. *)
Theorem columns_fit (st : scores) (k : Z) :
  accumulated st k -> k <= INT_MAX ->
  Forall (fits (dig_width_in (print_widths (score_count_in st)
                                (score_count_out st) (count st)))
               (dig_width_scores (print_widths (score_count_in st)
                                    (score_count_out st) (count st))))
         (rows (fst (print_stats (score_count_in st) (score_count_out st)
                       (invalid_in st) (invalid_out st) (count st)))) /\
  Forall (fits (dig_width_out (print_widths (score_count_in st)
                                 (score_count_out st) (count st)))
               (dig_width_scores (print_widths (score_count_in st)
                                    (score_count_out st) (count st))))
         (rows (snd (print_stats (score_count_in st) (score_count_out st)
                       (invalid_in st) (invalid_out st) (count st)))).
Proof.
  intros (Hin & Hout & Hiin & Hiout & Hsin & Hsout & Hc) Hk.
  unfold print_stats, print_widths.
  cbn [fst snd dig_width_in dig_width_out dig_width_scores].
  rewrite Hc. split; apply print_side_fits; assumption.
Qed.

Lemma columns_fit_witness :
  Forall (fits (dig_width_in (print_widths
                  (score_count_in (main_scores (input ["0 0"; "231 5"]%string)))
                  (score_count_out (main_scores (input ["0 0"; "231 5"]%string)))
                  (count (main_scores (input ["0 0"; "231 5"]%string)))))
               (dig_width_scores (print_widths
                  (score_count_in (main_scores (input ["0 0"; "231 5"]%string)))
                  (score_count_out (main_scores (input ["0 0"; "231 5"]%string)))
                  (count (main_scores (input ["0 0"; "231 5"]%string))))))
         (rows (fst (main (input ["0 0"; "231 5"]%string)))).
Proof.
  pose proof (fold_loop_body_accumulates
                (lines (input ["0 0"; "231 5"]%string)) init_scores 0
                accumulated_init) as Hacc.
  rewrite <- main_scores_fold in Hacc.
  assert (Hn : 0 + Z.of_nat (length (List.filter classified
                 (lines (input ["0 0"; "231 5"]%string)))) <= INT_MAX)
    by (vm_compute; discriminate).
  specialize (Hacc Hn).
  exact (proj1 (columns_fit _ _ Hacc Hn)).
Defined.

(** ** The percentages of a table *)








(** ** How [fgets] cuts the input *)

Lemma fgets_chars_cut room stdin :
  (length (fst (fgets_chars room stdin)) <= room)%nat /\
  forall pre post,
    fst (fgets_chars room stdin) = pre ++ newline :: post -> post = [].
Proof.
  revert stdin. induction room as [|room IH]; intros [|c s];
    cbn [fgets_chars fst length];
    try (split; [lia|intros [|? ?] ? H; discriminate H]).
  destruct (Ascii.eqb c newline) eqn:E.
  - cbn [fst length]. split; [lia|].
    intros [|p pre] post H; [injection H as _ <-; reflexivity|].
    injection H as _ H. destruct pre; discriminate H.
  - specialize (IH s). destruct (fgets_chars room s) as [l r].
    cbn [fst length] in *. destruct IH as [Hlen Hnl]. split; [lia|].
    intros [|p pre] post H.
    + injection H as -> _. rewrite Ascii.eqb_refl in E. discriminate E.
    + injection H as _ H. apply (Hnl pre post H).
Qed.

Lemma fgets_well_cut stdin line_buf rest :
  fgets LINE_BUF stdin = Some (line_buf, rest) -> well_cut line_buf.
Proof.
  intros H. destruct (fgets_consumes _ _ _ H) as [_ Hne].
  unfold fgets in H. destruct stdin as [|c s]; [discriminate|].
  pose proof (fgets_chars_cut (LINE_BUF - 1) (c :: s)) as Hcut.
  remember (fgets_chars (LINE_BUF - 1) (c :: s)) as r eqn:E.
  injection H as ->. cbn [fst] in Hcut.
  split; [exact Hne|exact Hcut].
Qed.

(** X6.  The line buffers the loop sees are the input cut into pieces,
    nothing lost and nothing added; every piece is non-empty, has at most
    23 characters, and holds a newline at most in its last place.  So an
    input line longer than that reaches [sscanf] in several pieces. *)
Theorem line_buffers_well_cut (stdin : list ascii) :
  concat (lines stdin) = stdin /\ Forall well_cut (lines stdin).
Proof.
  split; [apply lines_concat|].
  remember (length stdin) as n eqn:Hn. revert stdin Hn.
  induction n as [n IH] using lt_wf_ind. intros stdin Hn.
  destruct (fgets LINE_BUF stdin) as [[line_buf rest]|] eqn:E.
  - rewrite (lines_cons _ _ _ E). apply List.Forall_cons.
    + apply (fgets_well_cut _ _ _ E).
    + pose proof (fgets_shorter _ _ _ E) as Hlen.
      apply (IH (length rest)); [subst n; exact Hlen|reflexivity].
  - destruct stdin; [constructor|discriminate].
Qed.

(** ** Input in two parts *)

Lemma fgets_chars_newline_end room s1 s2 :
  fgets_chars room ((s1 ++ [newline]) ++ s2)
  = (fst (fgets_chars room (s1 ++ [newline])),
     snd (fgets_chars room (s1 ++ [newline])) ++ s2) /\
  (snd (fgets_chars room (s1 ++ [newline])) = [] \/
   last (snd (fgets_chars room (s1 ++ [newline]))) = Some newline).
Proof.
  revert room. induction s1 as [|c s1 IH]; intros [|room];
    cbn [app fgets_chars fst snd].
  - split; [reflexivity|right; reflexivity].
  - rewrite Ascii.eqb_refl. cbn [fst snd]. split; [reflexivity|left; reflexivity].
  - split; [reflexivity|right].
    change (c :: s1 ++ [newline]) with ((c :: s1) ++ [newline]).
    apply last_snoc.
  - destruct (Ascii.eqb c newline).
    + cbn [fst snd]. split; [reflexivity|right]. apply last_snoc.
    + destruct (IH room) as [Heq Hlast]. rewrite Heq.
      destruct (fgets_chars room (s1 ++ [newline])) as [l r].
      cbn [fst snd] in *. split; [reflexivity|exact Hlast].
Qed.

(** An input that ends with a newline is read the same way whatever
    follows it. *)
Lemma lines_app s1 s2 :
  s1 = [] \/ last s1 = Some newline ->
  lines (s1 ++ s2) = lines s1 ++ lines s2.
Proof.
  remember (length s1) as n eqn:Hn. revert s1 Hn.
  induction n as [n IH] using lt_wf_ind. intros s1 Hn [->|Hlast];
    [reflexivity|].
  apply last_Some in Hlast as [s1' ->].
  destruct (fgets_chars_newline_end (LINE_BUF - 1) s1' s2) as [Heq Hrest].
  assert (E1 : fgets LINE_BUF (s1' ++ [newline])
               = Some (fst (fgets_chars (LINE_BUF - 1) (s1' ++ [newline])),
                       snd (fgets_chars (LINE_BUF - 1) (s1' ++ [newline])))).
  { unfold fgets. destruct (s1' ++ [newline]) as [|c0 s0] eqn:E;
      [destruct s1'; discriminate|].
    f_equal. apply surjective_pairing. }
  assert (E2 : fgets LINE_BUF ((s1' ++ [newline]) ++ s2)
               = Some (fst (fgets_chars (LINE_BUF - 1) (s1' ++ [newline])),
                       snd (fgets_chars (LINE_BUF - 1) (s1' ++ [newline]))
                       ++ s2)).
  { unfold fgets. destruct ((s1' ++ [newline]) ++ s2) as [|c0 s0] eqn:E;
      [destruct s1'; discriminate|].
    rewrite Heq. reflexivity. }
  rewrite (lines_cons _ _ _ E1), (lines_cons _ _ _ E2).
  cbn [app]. f_equal.
  apply (IH (length (snd (fgets_chars (LINE_BUF - 1) (s1' ++ [newline]))))).
  - subst n. apply (fgets_shorter _ _ _ E1).
  - reflexivity.
  - exact Hrest.
Qed.

Lemma input_newline_end ls :
  input ls = [] \/ last (input ls) = Some newline.
Proof.
  induction ls as [|l ls IH] using rev_ind; [left; reflexivity|right].
  unfold input. rewrite map_app, concat_app. cbn [map concat].
  rewrite app_nil_r, app_assoc. apply last_snoc.
Qed.

(** ** Blank lines and the final newline *)

Lemma skip_space_spaces ws : spaces ws -> skip_space ws = [].
Proof.
  unfold spaces. induction ws as [|w ws IH]; [reflexivity|].
  cbn [forallb skip_space]. intros H. apply andb_true_iff in H as [Hw Hws].
  rewrite Hw. auto.
Qed.

Lemma space_not_minus c : isspace c = true -> is_minus c = false.
Proof.
  unfold isspace, is_minus. intros H. apply Z.eqb_neq.
  apply orb_true_iff in H as [H|H].
  - apply Z.eqb_eq in H. lia.
  - apply andb_true_iff in H as [H1 H2].
    apply Z.leb_le in H1, H2. lia.
Qed.

Lemma classify_spaces ws : spaces ws -> classify ws = None.
Proof.
  intros Hws. unfold classify, sscanf_d_d, sscanf_d, sscanf_minus_d.
  assert (Hconv : conv_d ws = None).
  { unfold conv_d. rewrite (skip_space_spaces ws Hws). reflexivity. }
  rewrite Hconv. destruct ws as [|c ws]; [reflexivity|].
  unfold spaces in Hws. cbn [forallb] in Hws.
  apply andb_true_iff in Hws as [Hc _].
  rewrite (space_not_minus c Hc). reflexivity.
Qed.

(** X7.  A blank line - nothing but white space, or nothing at all - is
    skipped: it changes no counter. *)
Theorem blank_line_skipped (st : scores) (ws : list ascii) :
  spaces ws -> loop_body st ws = st.
Proof.
  intros Hws. unfold loop_body. rewrite (classify_spaces ws Hws). reflexivity.
Qed.

Lemma blank_line_skipped_witness :
  loop_body init_scores (text "   " ++ [newline]) = init_scores.
Proof. apply blank_line_skipped. reflexivity. Defined.

Lemma skip_space_snoc s :
  skip_space (s ++ [newline])
  = match skip_space s with
    | [] => []
    | c :: r => c :: r ++ [newline]
    end.
Proof.
  induction s as [|c s IH]; [reflexivity|].
  cbn [app skip_space]. destruct (isspace c); [exact IH|reflexivity].
Qed.

Lemma scan_digits_snoc s acc :
  scan_digits acc (s ++ [newline])
  = (fst (scan_digits acc s), snd (scan_digits acc s) ++ [newline]).
Proof.
  revert acc. induction s as [|c s IH]; intros acc; [reflexivity|].
  cbn [app scan_digits]. destruct (isdigit c); [apply IH|reflexivity].
Qed.

Lemma conv_d_snoc s :
  conv_d (s ++ [newline])
  = option_map (fun vr => (fst vr, snd vr ++ [newline])) (conv_d s).
Proof.
  unfold conv_d. rewrite skip_space_snoc.
  assert (Hdigits : forall (negative : bool) (s1 : list ascii),
    match s1 ++ [newline] with
    | c :: _ =>
        if isdigit c then
          let '(v, rest) := scan_digits 0 (s1 ++ [newline]) in
          Some (store_int (if negative then - v else v), rest)
        else None
    | [] => None
    end
    = option_map (fun vr : Z * list ascii => (fst vr, snd vr ++ [newline]))
        match s1 with
        | c :: _ =>
            if isdigit c then
              let '(v, rest) := scan_digits 0 s1 in
              Some (store_int (if negative then - v else v), rest)
            else None
        | [] => None
        end).
  { intros negative [|d s1]; [reflexivity|].
    cbn [app]. destruct (isdigit d) eqn:Hd; [|reflexivity].
    change (d :: s1 ++ [newline]) with ((d :: s1) ++ [newline]).
    rewrite scan_digits_snoc.
    destruct (scan_digits 0 (d :: s1)) as [v rest]. reflexivity. }
  destruct (skip_space s) as [|c r]; [reflexivity|].
  destruct (is_minus c); [exact (Hdigits true r)|].
  destruct (is_plus c); [exact (Hdigits false r)|].
  exact (Hdigits false (c :: r)).
Qed.

(** The newline that ends a line buffer plays no part in its
    classification. *)
Lemma classify_snoc s : classify (s ++ [newline]) = classify s.
Proof.
  unfold classify, sscanf_d_d, sscanf_d, sscanf_minus_d.
  rewrite conv_d_snoc.
  destruct (conv_d s) as [[a rest]|]; cbn [option_map fst snd].
  - rewrite conv_d_snoc.
    destruct (conv_d rest) as [[b rest']|]; reflexivity.
  - destruct s as [|c s]; [reflexivity|].
    cbn [app]. destruct (is_minus c); [|reflexivity].
    rewrite conv_d_snoc. destruct (conv_d s) as [[b rest]|]; reflexivity.
Qed.

Lemma loop_body_snoc st s : loop_body st (s ++ [newline]) = loop_body st s.
Proof. unfold loop_body. rewrite classify_snoc. reflexivity. Qed.

Lemma fgets_chars_snoc room s :
  fgets_chars room (s ++ [newline])
  = (fst (fgets_chars room s), snd (fgets_chars room s) ++ [newline]) \/
  (snd (fgets_chars room s) = [] /\
   fgets_chars room (s ++ [newline])
   = (fst (fgets_chars room s) ++ [newline], [])).
Proof.
  revert room. induction s as [|c s IH]; intros [|room];
    cbn [app fgets_chars fst snd].
  - left. reflexivity.
  - rewrite Ascii.eqb_refl. right. split; reflexivity.
  - left. reflexivity.
  - destruct (Ascii.eqb c newline); [left; reflexivity|].
    destruct (IH room) as [H|[Hr H]]; rewrite H;
      destruct (fgets_chars room s) as [l r]; cbn [fst snd] in *.
    + left. reflexivity.
    + right. split; [exact Hr|reflexivity].
Qed.

Lemma lines_nil : lines [] = [].
Proof. reflexivity. Qed.

Lemma fold_lines_snoc stdin st :
  fold_left loop_body (lines (stdin ++ [newline])) st
  = fold_left loop_body (lines stdin) st.
Proof.
  remember (length stdin) as n eqn:Hn. revert stdin st Hn.
  induction n as [n IH] using lt_wf_ind. intros stdin st Hn.
  destruct stdin as [|c s].
  - change (lines ([] ++ [newline])) with [[newline]].
    rewrite lines_nil. cbn [fold_left].
    apply (blank_line_skipped st [newline]). reflexivity.
  - assert (E1 : fgets LINE_BUF (c :: s)
                 = Some (fst (fgets_chars (LINE_BUF - 1) (c :: s)),
                         snd (fgets_chars (LINE_BUF - 1) (c :: s)))).
    { unfold fgets. f_equal. apply surjective_pairing. }
    rewrite (lines_cons _ _ _ E1).
    pose proof (fgets_shorter _ _ _ E1) as Hshort.
    destruct (fgets_chars_snoc (LINE_BUF - 1) (c :: s)) as [H|[Hr H]].
    + assert (E2 : fgets LINE_BUF ((c :: s) ++ [newline])
                   = Some (fst (fgets_chars (LINE_BUF - 1) (c :: s)),
                           snd (fgets_chars (LINE_BUF - 1) (c :: s))
                           ++ [newline])).
      { unfold fgets. cbn [app]. f_equal. exact H. }
      rewrite (lines_cons _ _ _ E2). cbn [fold_left].
      apply (IH (length (snd (fgets_chars (LINE_BUF - 1) (c :: s)))));
        [subst n; exact Hshort|reflexivity].
    + assert (E2 : fgets LINE_BUF ((c :: s) ++ [newline])
                   = Some (fst (fgets_chars (LINE_BUF - 1) (c :: s))
                           ++ [newline], [])).
      { unfold fgets. cbn [app]. f_equal. exact H. }
      rewrite (lines_cons _ _ _ E2), Hr, lines_nil. cbn [fold_left].
      apply loop_body_snoc.
Qed.

(** X8.  A newline at the very end of the input makes no difference: an
    input whose last line is not terminated gives the same counters as the
    input with that line terminated, and a surplus final newline changes
    nothing either. *)
Theorem final_newline_irrelevant (stdin : list ascii) :
  main_scores (stdin ++ [newline]) = main_scores stdin /\
  main (stdin ++ [newline]) = main stdin.
Proof.
  assert (H : main_scores (stdin ++ [newline]) = main_scores stdin).
  { rewrite !main_scores_fold. apply fold_lines_snoc. }
  split; [exact H|]. unfold main. rewrite H. reflexivity.
Qed.

(** ** Two inputs, one after the other *)

Lemma store_score_adds score (a1 a2 a3 : list Z) (i1 i2 i3 k2 k3 : Z) :
  histogram a2 -> histogram a3 -> 0 <= i2 -> 0 <= i3 ->
  sum_counts a2 + i2 = k2 -> sum_counts a3 + i3 = k3 ->
  k2 < INT_MAX -> k3 < INT_MAX ->
  i3 = i1 + i2 ->
  (forall j, (j < Z.to_nat (MAX_SCORE + 1))%nat ->
             a3 !!! j = a1 !!! j + a2 !!! j) ->
  (store_score score a3 i3).2 = i1 + (store_score score a2 i2).2 /\
  forall j, (j < Z.to_nat (MAX_SCORE + 1))%nat ->
            (store_score score a3 i3).1 !!! j
            = a1 !!! j + (store_score score a2 i2).1 !!! j.
Proof.
  intros [Hl2 Hp2] [Hl3 Hp3] Hi2 Hi3 Hs2 Hs3 Hk2 Hk3 Hi Ha.
  pose proof (sum_counts_nonneg a2 Hp2). pose proof (sum_counts_nonneg a3 Hp3).
  assert (Hincr : forall idx, (idx < Z.to_nat (MAX_SCORE + 1))%nat ->
    (forall j, (j < Z.to_nat (MAX_SCORE + 1))%nat ->
       <[idx := int_incr (a3 !!! idx)]> a3 !!! j
       = a1 !!! j + <[idx := int_incr (a2 !!! idx)]> a2 !!! j)).
  { intros idx Hidx j Hj.
    pose proof (lookup_total_bounds a2 idx Hp2 ltac:(lia)).
    pose proof (lookup_total_bounds a3 idx Hp3 ltac:(lia)).
    rewrite !int_incr_id by (unfold INT_MIN; lia).
    destruct (decide (idx = j)) as [->|Hne].
    - rewrite !list_lookup_total_insert_eq by lia. rewrite (Ha j Hj). lia.
    - rewrite !list_lookup_total_insert_ne by exact Hne. apply Ha, Hj. }
  unfold store_score. destruct (score <? 0) eqn:Hneg; cbn [fst snd].
  - rewrite !int_incr_id by (unfold INT_MIN; lia). split; [lia|exact Ha].
  - apply Z.ltb_ge in Hneg.
    destruct (MAX_SCORE <? score) eqn:Hbig; cbn [fst snd].
    + split; [exact Hi|]. apply Hincr. rewrite MAX_SCORE_nat. lia.
    + apply Z.ltb_ge in Hbig. split; [exact Hi|]. apply Hincr.
      rewrite MAX_SCORE_nat. lia.
Qed.

Lemma loop_body_adds st1 st2 st3 k2 k3 line_buf :
  adds_up st1 st2 st3 -> accumulated st2 k2 -> accumulated st3 k3 ->
  k2 < INT_MAX -> k3 < INT_MAX -> classified line_buf = true ->
  adds_up st1 (loop_body st2 line_buf) (loop_body st3 line_buf).
Proof.
  intros (Hc & Hii & Hio & Hai & Hao)
         (Hin2 & Hout2 & Hiin2 & Hiout2 & Hsin2 & Hsout2 & Hc2)
         (Hin3 & Hout3 & Hiin3 & Hiout3 & Hsin3 & Hsout3 & Hc3) Hk2 Hk3 Hcl.
  unfold classified in Hcl. unfold loop_body.
  destruct (classify line_buf) as [[score_in score_out]|]; [|discriminate].
  pose proof (store_score_adds score_in _ _ _ _ _ _ k2 k3
                Hin2 Hin3 Hiin2 Hiin3 Hsin2 Hsin3 Hk2 Hk3 Hii Hai) as [Hi Ha].
  pose proof (store_score_adds score_out _ _ _ _ _ _ k2 k3
                Hout2 Hout3 Hiout2 Hiout3 Hsout2 Hsout3 Hk2 Hk3 Hio Hao)
    as [Hi' Ha'].
  destruct (store_score score_in (score_count_in st2) _),
           (store_score score_out (score_count_out st2) _),
           (store_score score_in (score_count_in st3) _),
           (store_score score_out (score_count_out st3) _).
  cbn [fst snd] in *. unfold adds_up.
  cbn [score_count_in score_count_out invalid_in invalid_out count].
  pose proof (sum_counts_nonneg _ (proj2 Hin2)).
  pose proof (sum_counts_nonneg _ (proj2 Hin3)).
  rewrite !int_incr_id by (unfold INT_MIN; lia).
  repeat split; try assumption. lia.
Qed.

Lemma fold_loop_body_adds bufs st1 st2 st3 k2 k3 :
  adds_up st1 st2 st3 -> accumulated st2 k2 -> accumulated st3 k3 ->
  k2 <= k3 ->
  k3 + Z.of_nat (length (List.filter classified bufs)) <= INT_MAX ->
  adds_up st1 (fold_left loop_body bufs st2) (fold_left loop_body bufs st3).
Proof.
  revert st2 st3 k2 k3.
  induction bufs as [|b bufs IH]; intros st2 st3 k2 k3 Hadd H2 H3 Hle Hk;
    [exact Hadd|].
  cbn [fold_left List.filter] in *. destruct (classified b) eqn:Hb.
  - cbn [length] in Hk.
    apply (IH _ _ (k2 + 1) (k3 + 1)).
    + apply (loop_body_adds _ _ _ k2 k3); try assumption; lia.
    + apply loop_body_accumulates; [exact H2|lia|exact Hb].
    + apply loop_body_accumulates; [exact H3|lia|exact Hb].
    + lia.
    + lia.
  - assert (Hnone : classify b = None).
    { unfold classified in Hb. destruct (classify b); [discriminate|reflexivity]. }
    rewrite !loop_body_skips by exact Hnone.
    apply (IH _ _ k2 k3); assumption.
Qed.

Lemma adds_up_init st k : accumulated st k -> adds_up st init_scores st.
Proof.
  intros _. unfold adds_up, init_scores.
  cbn [score_count_in score_count_out invalid_in invalid_out count].
  assert (Hz : forall j, (j < Z.to_nat (MAX_SCORE + 1))%nat ->
                         zero_counts !!! j = 0).
  { intros j Hj. unfold zero_counts. apply lookup_total_replicate_2. exact Hj. }
  repeat split; try lia; intros j Hj; rewrite (Hz j Hj); lia.
Qed.

(** X9.  The counters add up over inputs: when the first input is empty or
    ends with a newline, the count, the invalid counters and every bucket
    after reading the two inputs one after the other are the sums of what
    each input gives on its own (as long as the total stays an [int]). *)
Theorem concatenated_inputs_add (s1 s2 : list ascii) :
  s1 = [] \/ last s1 = Some newline ->
  Z.of_nat (length (List.filter classified (lines s1)))
  + Z.of_nat (length (List.filter classified (lines s2))) <= INT_MAX ->
  adds_up (main_scores s1) (main_scores s2) (main_scores (s1 ++ s2)).
Proof.
  intros Hend Hk.
  rewrite (main_scores_fold (s1 ++ s2)), (lines_app s1 s2 Hend), fold_left_app.
  rewrite <- (main_scores_fold s1), (main_scores_fold s2).
  pose proof (fold_loop_body_accumulates (lines s1) init_scores 0
                accumulated_init) as H1.
  rewrite Z.add_0_l, <- main_scores_fold in H1. specialize (H1 ltac:(lia)).
  apply (fold_loop_body_adds _ _ _ _ 0
           (Z.of_nat (length (List.filter classified (lines s1))))).
  - apply (adds_up_init _ _ H1).
  - apply accumulated_init.
  - exact H1.
  - lia.
  - exact Hk.
Qed.

Lemma concatenated_inputs_add_witness :
  adds_up (main_scores (input ["0 0"; "5 1"]%string))
          (main_scores (input ["5 -"; "x"]%string))
          (main_scores (input ["0 0"; "5 1"]%string
                        ++ input ["5 -"; "x"]%string)).
Proof.
  apply concatenated_inputs_add.
  - right. reflexivity.
  - vm_compute. discriminate.
Defined.

(** ** The median, whatever the arguments *)

Lemma int_add_id a b : is_int (a + b) -> int_add a b = a + b.
Proof. apply int_wrap_id. Qed.

Lemma median_scan_range cs i q t :
  i <= median_scan cs i (DNum q) t <= i + Z.of_nat (length cs).
Proof.
  revert i q. induction cs as [|c cs IH]; intros i q; cbn [median_scan length].
  - lia.
  - change (dadd (DNum q) (d_of_int c)) with (DNum (q + inject_Z c)).
    destruct (dge _ _); [lia|].
    specialize (IH (i + 1) (q + inject_Z c)%Q). lia.
Qed.

Lemma cells_length (a : list Z) :
  Z.of_nat (length (cells a)) <= MAX_SCORE + 1.
Proof. unfold cells. rewrite length_take. unfold MAX_SCORE. lia. Qed.

Lemma half_between (x : Z) (hi : Z) :
  0 <= x <= 2 * hi -> dbetween 0 hi (DNum (inject_Z x / inject_Z 2)).
Proof.
  intros Hx. unfold dbetween. split.
  - apply Qle_shift_div_l; [reflexivity|].
    rewrite Qmult_0_l. replace 0%Q with (inject_Z 0) by reflexivity.
    rewrite <- Zle_Qle. lia.
  - apply Qle_shift_div_r; [reflexivity|].
    rewrite <- inject_Z_mult, <- Zle_Qle. lia.
Qed.

(** X10.  Whatever the array and the total, [avg_median] returns a number
    (never NaN, never an infinity) between 0 and MAX_SCORE + 1: the upper
    end, 65537, is not a score but the index at which a scan that finds
    nothing stops. *)
Theorem avg_median_range (a : list Z) (N : Z) :
  dbetween 0 (MAX_SCORE + 1) (avg_median a N).
Proof.
  pose proof (cells_length a) as Hlen. unfold avg_median.
  destruct (negb (int_rem N 2 =? 0)).
  - pose proof (median_scan_range (cells a) 0 0%Q
                  (int_div (int_add N 1) 2)) as H.
    unfold dbetween, d_of_int. rewrite <- !Zle_Qle. lia.
  - pose proof (median_scan_range (cells a) 0 0%Q (int_div N 2)) as H1.
    pose proof (median_scan_range (cells a) 0 0%Q
                  (int_add (int_div N 2) 1)) as H2.
    rewrite int_add_id
      by (unfold is_int, INT_MIN, INT_MAX, MAX_SCORE in *; lia).
    apply half_between. lia.
Qed.

(** ** The median with many invalid scores *)

Lemma sum_counts_app a b : sum_counts (a ++ b) = sum_counts a + sum_counts b.
Proof.
  induction a as [|x a IH]; [reflexivity|].
  cbn [app]. rewrite !sum_counts_cons, IH. lia.
Qed.

Lemma sum_counts_take (a : list Z) n :
  Forall (fun c => 0 <= c) a -> sum_counts (take n a) <= sum_counts a.
Proof.
  intros Hpos. rewrite <- (take_drop n a) at 2. rewrite sum_counts_app.
  pose proof (sum_counts_nonneg (drop n a) (Forall_drop _ n a Hpos)). lia.
Qed.

Lemma median_scan_runs_off (a : list Z) t :
  histogram a -> sum_counts a < t ->
  median_scan (cells a) 0 (DNum 0) t = MAX_SCORE + 1.
Proof.
  intros [Hlen Hpos] Hsum. rewrite (cells_all a Hlen).
  rewrite (median_scan_never a 0 0%Q 0 t).
  - rewrite Hlen. unfold MAX_SCORE. lia.
  - reflexivity.
  - intros j _. pose proof (sum_counts_take a (S j) Hpos). lia.
Qed.

Lemma int_half N : 0 < N <= INT_MAX -> int_div N 2 = N / 2 /\ 0 <= N / 2 < INT_MAX.
Proof.
  intros HN. unfold INT_MAX in *.
  assert (Hhalf : 0 <= N / 2 <= 1073741823).
  { split; [apply Z.div_pos; lia|].
    pose proof (Z.div_lt_upper_bound N 2 1073741824 ltac:(lia) ltac:(lia)).
    lia. }
  split; [|lia]. unfold int_div. rewrite Z.quot_div_nonneg by lia.
  apply int_wrap_id. unfold is_int, INT_MIN, INT_MAX. lia.
Qed.

(** X11.  When too many records have an invalid score, the median is not
    a score of the input.  For an odd total with fewer than (N+1)/2 valid
    scores, and for an even total with fewer than N/2, both scans find
    nothing and the median is 65537; for an even total with exactly N/2
    valid scores the median is the average of 65537 and [lower], the score
    at which the running sum reaches N/2. *)
Theorem avg_median_invalid_majority (a : list Z) (N : Z) :
  histogram a ->
  (Z.odd N = true -> 0 < N < INT_MAX -> sum_counts a < (N + 1) / 2 ->
   avg_median a N = d_of_int (MAX_SCORE + 1)) /\
  (Z.even N = true -> 0 < N <= INT_MAX -> sum_counts a < N / 2 ->
   avg_median a N
   = DNum (inject_Z (MAX_SCORE + 1 + (MAX_SCORE + 1)) / inject_Z 2)) /\
  (forall lower,
     Z.even N = true -> 0 < N <= INT_MAX -> reaches_at a (N / 2) lower ->
     sum_counts a < N / 2 + 1 ->
     avg_median a N
     = DNum (inject_Z (Z.of_nat lower + (MAX_SCORE + 1)) / inject_Z 2)).
Proof.
  intros Ha. pose proof Ha as [Hlen Hpos]. split; [|split].
  - intros Hodd HN Hsum. unfold avg_median, int_rem.
    assert (Hrem : Z.rem N 2 = 1).
    { rewrite Z.rem_mod_nonneg by lia. rewrite Zmod_odd, Hodd. reflexivity. }
    rewrite Hrem. cbn [Z.eqb negb Pos.eqb].
    assert (Hthr : int_div (int_add N 1) 2 = (N + 1) / 2).
    { unfold int_div, int_add. unfold INT_MAX in HN.
      rewrite (int_wrap_id (N + 1)) by (unfold is_int, INT_MIN, INT_MAX; lia).
      rewrite Z.quot_div_nonneg by lia.
      apply int_wrap_id. unfold is_int, INT_MIN, INT_MAX.
      pose proof (Z.div_pos (N + 1) 2 ltac:(lia) ltac:(lia)).
      pose proof (Z.div_le_upper_bound (N + 1) 2 2147483647 ltac:(lia)
                    ltac:(lia)). lia. }
    rewrite Hthr, (median_scan_runs_off a _ Ha Hsum). reflexivity.
  - intros Heven HN Hsum. unfold avg_median, int_rem.
    assert (Hrem : Z.rem N 2 = 0).
    { rewrite Z.rem_mod_nonneg by lia. rewrite Zmod_even, Heven. reflexivity. }
    rewrite Hrem. cbn [Z.eqb negb].
    destruct (int_half N HN) as [-> Hhalf].
    rewrite (int_add_id (N / 2) 1) by (unfold is_int, INT_MIN; lia).
    rewrite !(median_scan_runs_off a _ Ha) by lia.
    rewrite int_add_id by (unfold is_int, INT_MIN, INT_MAX, MAX_SCORE; lia).
    reflexivity.
  - intros lower Heven HN Hlow Hsum. unfold avg_median, int_rem.
    assert (Hrem : Z.rem N 2 = 0).
    { rewrite Z.rem_mod_nonneg by lia. rewrite Zmod_even, Heven. reflexivity. }
    rewrite Hrem. cbn [Z.eqb negb].
    destruct (int_half N HN) as [-> Hhalf].
    rewrite (int_add_id (N / 2) 1) by (unfold is_int, INT_MIN; lia).
    rewrite (median_scan_reaches_at a _ lower Hlen Hlow).
    rewrite (median_scan_runs_off a _ Ha Hsum).
    destruct Hlow as (Hl & _). rewrite Hlen, MAX_SCORE_nat in Hl.
    rewrite int_add_id
      by (unfold is_int, INT_MIN, INT_MAX, MAX_SCORE in *; lia).
    reflexivity.
Qed.

Lemma avg_median_invalid_majority_witness :
  avg_median (histogram_of [(5%nat, 1)]) 2
  = DNum (inject_Z (5 + (MAX_SCORE + 1)) / inject_Z 2) /\
  avg_median (histogram_of [(5%nat, 1)]) 3 = d_of_int (MAX_SCORE + 1).
Proof.
  assert (Ha : histogram (histogram_of [(5%nat, 1)])).
  { apply histogram_of_histogram.
    repeat (apply List.Forall_cons; [simpl; lia|]). apply List.Forall_nil. }
  destruct (avg_median_invalid_majority _ 2 Ha) as (_ & _ & Hhalf).
  destruct (avg_median_invalid_majority _ 3 Ha) as (Hodd & _ & _).
  split.
  - apply (Hhalf 5%nat).
    + reflexivity.
    + unfold INT_MAX. lia.
    + split; [|split].
      * rewrite histogram_of_length, MAX_SCORE_nat. unfold MAX_SCORE. lia.
      * vm_compute. discriminate.
      * intros j Hj.
        destruct j as [|[|[|[|[|j]]]]]; [vm_compute; reflexivity ..|lia].
    + vm_compute. reflexivity.
  - apply Hodd.
    + reflexivity.
    + unfold INT_MAX. lia.
    + vm_compute. reflexivity.
Defined.

(** ** The mean, whatever the arguments *)

Lemma mean_loop_number cs i q :
  exists q', mean_loop cs i (DNum q) = DNum q'.
Proof.
  revert i q. induction cs as [|c cs IH]; intros i q; cbn [mean_loop].
  - exists q. reflexivity.
  - apply IH.
Qed.

(** X12.  [avg_mean] returns a number exactly when the total is not zero;
    with a zero total the division is carried out all the same and gives
    NaN or an infinity. *)
Theorem avg_mean_number (a : list Z) (N : Z) :
  (exists q, avg_mean a N = DNum q) <-> N <> 0.
Proof.
  unfold avg_mean.
  destruct (mean_loop_number (cells a) 0 0%Q) as [q' ->].
  unfold ddiv, d_of_int, Qis_zero. cbn [Qnum inject_Z].
  destruct (N =? 0) eqn:E.
  - apply Z.eqb_eq in E. split; [|tauto].
    intros [q H]. destruct (Qnum q' =? 0); discriminate H.
  - apply Z.eqb_neq in E. split; [tauto|]. intros _. eexists. reflexivity.
Qed.

Lemma weighted_sum_bounds cs i :
  Forall (fun c => 0 <= c) cs -> 0 <= i ->
  0 <= weighted_sum cs i /\
  weighted_sum cs i <= (i + Z.of_nat (length cs) - 1) * sum_counts cs.
Proof.
  intros Hpos. revert i. induction Hpos as [|c cs Hc Hcs IH]; intros i Hi.
  - cbn. lia.
  - cbn [weighted_sum length]. rewrite sum_counts_cons.
    destruct (IH (i + 1) ltac:(lia)) as [H0 H1].
    pose proof (sum_counts_nonneg cs Hcs) as Hs.
    split; [nia|nia].
Qed.

Lemma weighted_sum_top (a : list Z) :
  histogram a -> 0 <= weighted_sum a 0 <= MAX_SCORE * sum_counts a.
Proof.
  intros [Hlen Hpos]. rewrite MAX_SCORE_nat in Hlen.
  destruct (weighted_sum_bounds a 0 Hpos ltac:(lia)) as [H0 H1].
  rewrite Hlen in H1.
  replace (0 + Z.of_nat (S (Z.to_nat MAX_SCORE)) - 1) with MAX_SCORE in H1
    by (unfold MAX_SCORE; lia).
  lia.
Qed.

(** X13.  As long as every product score × count fits an [int], the mean
    of a histogram whose counts sum to at most N > 0 lies between 0 and
    MAX_SCORE. *)
Theorem avg_mean_range (a : list Z) (N : Z) :
  histogram a -> sum_counts a <= N -> 0 < N ->
  (forall j c, a !! j = Some c -> is_int (Z.of_nat j * c)) ->
  dbetween 0 MAX_SCORE (avg_mean a N).
Proof.
  intros Ha Hsum HN Hfit. pose proof Ha as [Hlen Hpos].
  unfold avg_mean. rewrite (cells_all a Hlen).
  destruct (mean_loop_weighted a 0 0%Q 0) as (q' & -> & Hq').
  - reflexivity.
  - intros j c Hj. rewrite Z.add_0_l. apply (Hfit j c Hj).
  - unfold ddiv, d_of_int, Qis_zero. cbn [Qnum inject_Z].
    replace (N =? 0) with false by (symmetry; apply Z.eqb_neq; lia).
    rewrite Z.add_0_l in Hq'. unfold dbetween. rewrite Hq'.
    pose proof (weighted_sum_top a Ha) as Hw.
    assert (HNq : Qlt 0 (inject_Z N)).
    { replace 0%Q with (inject_Z 0) by reflexivity. rewrite <- Zlt_Qlt. lia. }
    split.
    + apply Qle_shift_div_l; [exact HNq|].
      rewrite <- inject_Z_mult, <- Zle_Qle. lia.
    + apply Qle_shift_div_r; [exact HNq|].
      rewrite <- inject_Z_mult, <- Zle_Qle. unfold MAX_SCORE in *. lia.
Qed.

Lemma small_counts_fit (a : list Z) :
  histogram a -> sum_counts a <= 32767 ->
  forall j c, a !! j = Some c -> is_int (Z.of_nat j * c).
Proof.
  intros [Hlen Hpos] Hsum j c Hj.
  pose proof (lookup_lt_Some _ _ _ Hj) as Hlt.
  pose proof (lookup_total_bounds a j Hpos Hlt) as Hb.
  rewrite (list_lookup_total_correct _ _ _ Hj) in Hb.
  rewrite Hlen, MAX_SCORE_nat in Hlt.
  unfold is_int, INT_MIN, INT_MAX, MAX_SCORE in *. nia.
Qed.

Lemma avg_mean_range_witness :
  dbetween 0 MAX_SCORE
    (avg_mean (histogram_of [(5%nat, 1); (10%nat, 1)]) 3).
Proof.
  assert (Ha : histogram (histogram_of [(5%nat, 1); (10%nat, 1)])).
  { apply histogram_of_histogram.
    repeat (apply List.Forall_cons; [simpl; lia|]). apply List.Forall_nil. }
  apply avg_mean_range.
  - exact Ha.
  - vm_compute. discriminate.
  - lia.
  - apply (small_counts_fit _ Ha). vm_compute. discriminate.
Defined.

(** ** The means of a run *)

(** X14.  For every input with at least one and at most 32767 classified
    lines, the two means [main] prints are the weighted averages
    Σ score × count / total of the two histograms. *)
Theorem main_means_weighted (stdin : list ascii) :
  0 < Z.of_nat (length (List.filter classified (lines stdin))) <= 32767 ->
  deq (mean (fst (main stdin)))
      (DNum (inject_Z (weighted_sum (score_count_in (main_scores stdin)) 0)
             / inject_Z (count (main_scores stdin)))) /\
  deq (mean (snd (main stdin)))
      (DNum (inject_Z (weighted_sum (score_count_out (main_scores stdin)) 0)
             / inject_Z (count (main_scores stdin)))).
Proof.
  intros Hn. unfold main, print_stats, print_side. cbn [fst snd mean].
  pose proof (fold_loop_body_accumulates (lines stdin) init_scores 0
                accumulated_init) as H.
  rewrite Z.add_0_l, <- main_scores_fold in H.
  specialize (H ltac:(unfold INT_MAX; lia)).
  destruct H as (Hin & Hout & Hiin & Hiout & Hsin & Hsout & Hc).
  split; apply avg_mean_weighted; try (apply Hin || apply Hout); try lia;
    apply small_counts_fit; try assumption; lia.
Qed.

Lemma main_means_weighted_witness :
  deq (mean (fst (main (input ["5 0"; "10 0"; "x"]%string))))
      (DNum (inject_Z (weighted_sum (score_count_in
               (main_scores (input ["5 0"; "10 0"; "x"]%string))) 0)
             / inject_Z (count
                 (main_scores (input ["5 0"; "10 0"; "x"]%string))))).
Proof.
  assert (H : 0 < Z.of_nat (length (List.filter classified
                 (lines (input ["5 0"; "10 0"; "x"]%string)))) <= 32767)
    by (split; vm_compute; [reflexivity|discriminate]).
  exact (proj1 (main_means_weighted _ H)).
Defined.
